(** * Elyra metadata application utilities: option resolution

    A shallow embedding of [elyra/metadata/metadata_app_utils.py]:
    the [Option] class family, the argument ingestion of [AppBase],
    the schema compiler [schema_to_options] and the resolver
    [process_cli_option] / [process_cli_options].

    Python objects that the code mutates in place ([Option] instances,
    the [argv] list, the [argv_mappings] dict) are threaded explicitly:
    every operation returns its outcome together with the objects as they
    are when it returns or raises. *)

From Stdlib Require Import ZArith List Bool Ascii String Lia SpecFloat.
From Stdlib Require DecimalString.
Import ListNotations.
Local Open Scope string_scope.
Local Open Scope Z_scope.

Set Implicit Arguments.

(* ================================================================== *)
(** * Python strings *)

Module PyStr.

(** [c in s] for a one-character needle. *)
Fixpoint contains_char (c : ascii) (s : string) : bool :=
  match s with
  | EmptyString => false
  | String a s' => Ascii.eqb a c || contains_char c s'
  end.

(** [s.split(c, 1)] when [c in s]: the text before the first [c] and the
    text after it. *)
Fixpoint split_first (c : ascii) (s : string) : option (string * string) :=
  match s with
  | EmptyString => None
  | String a s' =>
      if Ascii.eqb a c then Some (EmptyString, s')
      else match split_first c s' with
           | Some (l, r) => Some (String a l, r)
           | None => None
           end
  end.

(** [s.split(c)[0]]: the text before the first [c], all of [s] when there
    is none. *)
Definition before_first (c : ascii) (s : string) : string :=
  match split_first c s with
  | Some (l, _) => l
  | None => s
  end.

(** [s.rsplit(c, 1)[0]]: the text before the last [c], all of [s] when
    there is none. *)
Fixpoint rsplit_head (c : ascii) (s : string) : string :=
  match s with
  | EmptyString => EmptyString
  | String a s' =>
      if contains_char c s' then String a (rsplit_head c s')
      else if Ascii.eqb a c then EmptyString
      else String a s'
  end.

(** The text after the last [c], all of [s] when there is none. *)
Fixpoint after_last (c : ascii) (s : string) : string :=
  match s with
  | EmptyString => EmptyString
  | String a s' =>
      if contains_char c s' then after_last c s'
      else if Ascii.eqb a c then s'
      else String a s'
  end.

(** [os.path.basename] on a POSIX path. *)
Definition basename (path : string) : string := after_last "/" path.

Definition startswith (s pre : string) : bool := String.prefix pre s.

Definition lower_ascii (a : ascii) : ascii :=
  let n := nat_of_ascii a in
  if (Nat.leb 65 n && Nat.leb n 90)%bool then ascii_of_nat (n + 32) else a.

(** [s.lower()] on ASCII text. *)
Fixpoint lower (s : string) : string :=
  match s with
  | EmptyString => EmptyString
  | String a s' => String (lower_ascii a) (lower s')
  end.

(** The characters of [s], as [for ch in s] yields them. *)
Fixpoint chars (s : string) : list string :=
  match s with
  | EmptyString => []
  | String a s' => String a EmptyString :: chars s'
  end.

Definition is_empty (s : string) : bool :=
  match s with EmptyString => true | _ => false end.

(** [sub in s] *)
Fixpoint contains (sub s : string) : bool :=
  String.prefix sub s ||
  match s with
  | EmptyString => false
  | String _ s' => contains sub s'
  end.

End PyStr.

(* ================================================================== *)
(** * Python dicts with string keys

    A dict keeps its keys in insertion order; assigning to an existing key
    keeps the key's position. *)

Module PyDict.

Definition dict (V : Type) := list (string * V).

Section Ops.
Variable V : Type.

Fixpoint get (k : string) (d : dict V) : option V :=
  match d with
  | [] => None
  | (k', v) :: d' => if String.eqb k' k then Some v else get k d'
  end.

Definition mem (k : string) (d : dict V) : bool :=
  match get k d with Some _ => true | None => false end.

(** [d[k] = v] *)
Fixpoint set (k : string) (v : V) (d : dict V) : dict V :=
  match d with
  | [] => [(k, v)]
  | (k', v') :: d' =>
      if String.eqb k' k then (k', v) :: d' else (k', v') :: set k v d'
  end.

(** [d.pop(k)] for a key that is present *)
Definition pop (k : string) (d : dict V) : dict V :=
  filter (fun kv => negb (String.eqb (fst kv) k)) d.

(** [d.update(other)] *)
Definition update (d other : dict V) : dict V :=
  fold_left (fun acc kv => set (fst kv) (snd kv) acc) other d.

Definition keys (d : dict V) : list string := map fst d.

End Ops.

(** A lookup that hands the value found to its continuation:
  [found d[k]] when [k in d], [missing] otherwise. *)
Section LookupCase.
Variables (V R : Type) (k : string) (found : V -> R) (missing : R).

Fixpoint lookup_case (d : dict V) : R :=
  match d with
  | [] => missing
  | (k', v) :: d' => if String.eqb k' k then found v else lookup_case d'
  end.
End LookupCase.

End PyDict.

Import PyDict.

(* ================================================================== *)
(** * Python values *)

(** The values that reach this module: what [json.load] returns, the
    strings of the command line, and what the coercions of [set_value]
    produce.  A float is an IEEE-754 value. *)
#[warnings="-register-all"]
Inductive pyval : Type :=
| PNone
| PBool (b : bool)
| PInt (z : Z)
| PFloat (f : spec_float)
| PStr (s : string)
| PList (l : list pyval)
| PDict (d : list (string * pyval)).

Definition is_none (v : pyval) : bool :=
  match v with PNone => true | _ => false end.

Definition float_is_zero (f : spec_float) : bool :=
  match f with S754_zero _ => true | _ => false end.

(** Truth value of an object: [bool(v)]. *)
Definition truthy (v : pyval) : bool :=
  match v with
  | PNone => false
  | PBool b => b
  | PInt z => negb (z =? 0)
  | PFloat f => negb (float_is_zero f)
  | PStr s => negb (PyStr.is_empty s)
  | PList l => match l with [] => false | _ => true end
  | PDict d => match d with [] => false | _ => true end
  end.

(** [float == int], compared exactly. *)
Definition float_eq_Z (f : spec_float) (z : Z) : bool :=
  match f with
  | S754_zero _ => z =? 0
  | S754_finite s m e =>
      let sign := if s then (-1) else 1 in
      if 0 <=? e then z =? sign * (Z.pos m * 2 ^ e)
      else ((Z.pos m mod 2 ^ (- e)) =? 0) && (z =? sign * (Z.pos m / 2 ^ (- e)))
  | _ => false
  end.

Definition Z_of_bool (b : bool) : Z := if b then 1 else 0.

(** [a == b].  Booleans are the integers 0 and 1; dicts are equal when they
    have the same keys with equal values. *)
Fixpoint py_eq (a b : pyval) {struct a} : bool :=
  match a, b with
  | PNone, PNone => true
  | PBool x, PBool y => Bool.eqb x y
  | PBool x, PInt y => Z_of_bool x =? y
  | PInt x, PBool y => x =? Z_of_bool y
  | PInt x, PInt y => x =? y
  | PBool x, PFloat y => float_eq_Z y (Z_of_bool x)
  | PFloat x, PBool y => float_eq_Z x (Z_of_bool y)
  | PInt x, PFloat y => float_eq_Z y x
  | PFloat x, PInt y => float_eq_Z x y
  | PFloat x, PFloat y => SFeqb x y
  | PStr x, PStr y => String.eqb x y
  | PList la, PList lb =>
      (fix go (la lb : list pyval) : bool :=
         match la, lb with
         | [], [] => true
         | x :: la', y :: lb' => py_eq x y && go la' lb'
         | _, _ => false
         end) la lb
  | PDict da, PDict db =>
      Nat.eqb (List.length da) (List.length db) &&
      (fix go (da : list (string * pyval)) : bool :=
         match da with
         | [] => true
         | (k, v) :: da' =>
             match get k db with
             | Some w => py_eq v w
             | None => false
             end && go da'
         end) da
  | _, _ => false
  end.

(** [x in l] for a list [l]. *)
Definition py_in (x : pyval) (l : list pyval) : bool :=
  existsb (fun y => py_eq x y) l.

(** [str(z)] *)
Definition str_of_Z (z : Z) : string :=
  DecimalString.NilZero.string_of_int (Z.to_int z).

(* ================================================================== *)
(** * Exceptions and outcomes *)

(** The exceptions the module can raise, by class. *)
Inductive exn : Type :=
| TypeError
| ValueError
| KeyError
| AttributeError
| SyntaxError
| OSError.

(** The text [log_and_exit] prints before it exits; each constructor is one
    of the format strings of the source with its arguments. *)
Inductive message : Type :=
| MsgRequiresValue (cli_option : string)
    (* "Parameter '{}' requires a value." *)
| MsgRequiresOneOf (cli_option : string) (one_of : list pyval)
    (* "Parameter '{}' requires one of the following values: {}" *)
| MsgRequiredParameter (cli_option : string)
    (* "'{}' is a required parameter." *)
| MsgRequiredParameterOneOf (cli_option : string) (one_of : list pyval)
    (* "'{}' is a required parameter and must be one of the following values: {}." *)
| MsgUnexpected (argv : list string)
    (* "The following arguments were unexpected: {}" *)
| MsgCantFind (cli_option : string).
    (* "Can't find option '{}' in argv!" *)

(** How a call ends: it returns, it raises, or it leaves through
    [log_and_exit(msg, exit_status, display_help)], whose [sys.exit] raises
    [SystemExit]. *)
Inductive outcome (A : Type) : Type :=
| Ok (a : A)
| Raise (e : exn)
| Exit (msg : option message) (display_help : bool) (exit_status : Z).

Arguments Ok {A} a.
Arguments Raise {A} e.
Arguments Exit {A} msg display_help exit_status.

Definition is_ok {A : Type} (r : outcome A) : bool :=
  match r with Ok _ => true | _ => false end.

(** [log_and_exit(msg=None, exit_status=1, display_help=False)] *)
Definition log_and_exit {A : Type} (msg : option message) (exit_status : Z)
    (display_help : bool) : outcome A :=
  Exit msg display_help exit_status.

(** The error kinds of the specification, read off the outcome. *)
Definition MissingRequiredError {A : Type} (tok : string) (r : outcome A) : Prop :=
  (exists st, r = Exit (Some (MsgRequiredParameter tok)) true st /\ st <> 0) \/
  (exists st l, r = Exit (Some (MsgRequiredParameterOneOf tok l)) true st /\ st <> 0).

Definition MissingValueError {A : Type} (tok : string) (r : outcome A) : Prop :=
  exists st, r = Exit (Some (MsgRequiresValue tok)) true st /\ st <> 0.

Definition InvalidChoiceError {A : Type} (tok : string) (r : outcome A) : Prop :=
  exists st l, r = Exit (Some (MsgRequiresOneOf tok l)) true st /\ st <> 0.

Definition UnknownOptionError {A : Type} (argv : list string) (r : outcome A) : Prop :=
  exists st, r = Exit (Some (MsgUnexpected argv)) true st /\ st <> 0.

(* ================================================================== *)
(** * The Option classes *)

(** The class of an instance: [Option] and its subclasses. *)
Inductive option_class : Type :=
| ClsOption
| ClsCliOption
| ClsFlag
| ClsSchemaProperty
| ClsMetadataSchemaProperty.

(** An instance of [Option] (or of a subclass).  [type_] is any value:
    a schema's ['type'] may be missing or a list.  [one_of] is [None] or a
    list of values; [name] is [None] or a string. *)
Record Opt : Type := mkOpt {
  cls : option_class;
  cli_option : string;
  name : option string;
  description : pyval;
  default_value : pyval;
  value : pyval;
  one_of : option (list pyval);
  required : bool;
  type_ : pyval;
  processed : bool;
  schema_property : option pyval
}.

Definition with_value (o : Opt) (v : pyval) : Opt :=
  mkOpt (cls o) (cli_option o) (name o) (description o) (default_value o) v
        (one_of o) (required o) (type_ o) (processed o) (schema_property o).

Definition with_required (o : Opt) (b : bool) : Opt :=
  mkOpt (cls o) (cli_option o) (name o) (description o) (default_value o) (value o)
        (one_of o) b (type_ o) (processed o) (schema_property o).

Definition with_processed (o : Opt) (b : bool) : Opt :=
  mkOpt (cls o) (cli_option o) (name o) (description o) (default_value o) (value o)
        (one_of o) (required o) (type_ o) b (schema_property o).

(** [isinstance(o, Flag)] *)
Definition is_Flag (o : Opt) : bool :=
  match cls o with ClsFlag => true | _ => false end.

(** [Option.__init__]: [value] starts as [default_value]; [processed] is the
    class attribute [False]. *)
Definition Option_init (c : option_class) (cli_option : string)
    (name : option string) (description default_value : pyval)
    (one_of : option (list pyval)) (required : bool) (type_ : pyval) : Opt :=
  mkOpt c cli_option name description default_value default_value
        one_of required type_ false None.

(** [Option(cli_option, name=None, description=None, default_value=None,
    one_of=None, required=False, type="string")] *)
Definition Option_ := Option_init ClsOption.

(** [CliOption(cli_option, **kwargs)] *)
Definition CliOption := Option_init ClsCliOption.

(** [Flag(flag, **kwargs)]: the type is fixed to ["boolean"]. *)
Definition Flag (flag : string) (name : option string)
    (description default_value : pyval) (one_of : option (list pyval))
    (required : bool) : Opt :=
  Option_init ClsFlag flag name description default_value one_of required
              (PStr "boolean").

(* ================================================================== *)
(** * Built-ins and the file system

    The Python built-ins the module calls and the files it opens are
    parameters of the development: every result below holds whatever they
    return. *)

Record Builtins : Type := mkBuiltins {
  (** [ast.literal_eval(v)] *)
  literal_eval : pyval -> outcome pyval;
  (** [int(v)] *)
  py_int : pyval -> outcome Z;
  (** [float(v)] *)
  py_float : pyval -> outcome spec_float;
  (** [str(v)] for a float, a list or a dict *)
  py_repr : pyval -> string;
  (** [json.load(open(filename))] *)
  json_load_file : pyval -> outcome pyval
}.

(** [d.get(k)] on a dict of values: [None] when the key is absent. *)
Definition dict_get_default (k : string) (d : dict pyval) : pyval :=
  match get k d with Some v => v | None => PNone end.

Section Coercion.

Variable B : Builtins.

(** [str(v)] *)
Definition py_str (v : pyval) : string :=
  match v with
  | PNone => "None"
  | PBool true => "True"
  | PBool false => "False"
  | PInt z => str_of_Z z
  | PStr s => s
  | _ => py_repr B v
  end.

(** ["." in v]: a substring test on a string, a membership test on a list,
    a key test on a dict; any other operand is not iterable. *)
Definition dot_in (v : pyval) : outcome bool :=
  match v with
  | PStr s => Ok (PyStr.contains_char "." s)
  | PList l => Ok (py_in (PStr ".") l)
  | PDict d => Ok (mem "." d)
  | _ => Raise TypeError
  end.

Definition type_is (o : Opt) (t : string) : bool := py_eq (type_ o) (PStr t).

(** [Option.set_value]: the value to store, by the option's type.  When a
    coercion raises, nothing has been assigned. *)
Definition coerce (o : Opt) (raw : pyval) : outcome pyval :=
  if type_is o "array" || type_is o "object" then literal_eval B raw
  else if type_is o "integer" then
    match py_int B raw with
    | Ok z => Ok (PInt z)
    | Raise e => Raise e
    | Exit m h s => Exit m h s
    end
  else if type_is o "number" then
    match dot_in raw with
    | Ok true =>
        match py_float B raw with
        | Ok f => Ok (PFloat f)
        | Raise e => Raise e
        | Exit m h s => Exit m h s
        end
    | Ok false =>
        match py_int B raw with
        | Ok z => Ok (PInt z)
        | Raise e => Raise e
        | Exit m h s => Exit m h s
        end
    | Raise e => Raise e
    | Exit m h s => Exit m h s
    end
  else if type_is o "boolean" then
    match raw with
    | PBool _ => Ok raw
    | _ =>
        let s := PyStr.lower (py_str raw) in
        if String.eqb s "true" || String.eqb s "1" then Ok (PBool true)
        else if String.eqb s "false" || String.eqb s "0" then Ok (PBool false)
        else Ok raw  (* let it take its course *)
    end
  else if type_is o "null" then
    let s := py_str raw in
    if String.eqb s "null" || String.eqb s "None" then Ok PNone
    else Ok raw
  else Ok raw.

Definition set_value (o : Opt) (raw : pyval) : outcome Opt :=
  match coerce o raw with
  | Ok v => Ok (with_value o v)
  | Raise e => Raise e
  | Exit m h s => Exit m h s
  end.

End Coercion.

(** [SchemaProperty(name, schema_property)]: ['--' + name] needs a string,
    [schema_property.get] needs a dict. *)
Definition SchemaProperty_init (c : option_class) (name : option string)
    (schema_property : pyval) : outcome Opt :=
  match name with
  | None => Raise TypeError
  | Some n =>
      match schema_property with
      | PDict sp =>
          Ok (mkOpt c ("--" ++ n) (Some n)
                (dict_get_default "description" sp)
                (dict_get_default "default" sp)
                (dict_get_default "default" sp)
                None false
                (dict_get_default "type" sp)
                false (Some schema_property))
      | _ => Raise AttributeError
      end
  end.

Definition SchemaProperty := SchemaProperty_init ClsSchemaProperty.
Definition MetadataSchemaProperty := SchemaProperty_init ClsMetadataSchemaProperty.

(* ================================================================== *)
(** * The application object *)

(** What an [AppBase] instance reaches: its [argv] list, the
    [argv_mappings] dict (a class attribute, so the dict every instance
    shares) and the level of the root logger. *)
Record App : Type := mkApp {
  argv : list string;
  argv_mappings : dict pyval;
  log_level : Z
}.

Definition str_in (x : string) (l : list string) : bool :=
  existsb (String.eqb x) l.

(** [l.remove(x)]: drops the first [x]; [None] stands for the [ValueError]
    of an absent element. *)
Fixpoint list_remove (x : string) (l : list string) : option (list string) :=
  match l with
  | [] => None
  | y :: l' =>
      if String.eqb y x then Some l'
      else match list_remove x l' with
           | Some r => Some (y :: r)
           | None => None
           end
  end.

(** [logging._checkLevel] on the text after [--log-level=]. *)
Definition logging_DEBUG : Z := 10.
Definition logging_INFO : Z := 20.

Definition nameToLevel : dict Z :=
  [("CRITICAL", 50); ("FATAL", 50); ("ERROR", 40); ("WARN", 30);
   ("WARNING", 30); ("INFO", 20); ("DEBUG", 10); ("NOTSET", 0)].

Definition checkLevel (level : pyval) : outcome Z :=
  match level with
  | PInt z => Ok z
  | PBool b => Ok (Z_of_bool b)
  | PStr s => match get s nameToLevel with
              | Some z => Ok z
              | None => Raise ValueError
              end
  | _ => Raise TypeError
  end.

(** [arg.split('=', 1)] when ['=' in arg], else [(arg, None)]. *)
Definition split_arg (arg : string) : string * pyval :=
  match PyStr.split_first "=" arg with
  | Some (option, value) => (option, PStr value)
  | None => (arg, PNone)
  end.

(* ================================================================== *)
(** * Argument ingestion *)

(** [(prefix + '.' + k) if prefix else k]: an empty prefix counts as none. *)
Definition join_prefix (prefix : option string) (k : string) : string :=
  match prefix with
  | Some p => if PyStr.is_empty p then k else p ++ "." ++ k
  | None => k
  end.

(** [AppBase.load_argv_mappings_from_json]: one pass over the items of
    [json_data].  The first dict-valued item ends the pass: the method
    returns what the recursive call returns. *)
Fixpoint load_argv_mappings_from_json (json_data : pyval) (prefix : option string)
    (m : dict pyval) {struct json_data} : outcome unit * dict pyval :=
  match json_data with
  | PDict items =>
      (fix loop (items : list (string * pyval)) (m : dict pyval)
         : outcome unit * dict pyval :=
         match items with
         | [] => (Ok tt, m)
         | (k, v) :: rest =>
             let prefixed_name :=
               if String.eqb k "metadata" then None
               else Some (join_prefix prefix k) in
             match v with
             | PDict _ => load_argv_mappings_from_json v prefixed_name m
             | _ =>
                 match prefixed_name with
                 | None => (Raise TypeError, m)  (* '--' + None *)
                 | Some p => loop rest (set ("--" ++ p) v m)
                 end
             end
         end) items m
  | _ => (Raise AttributeError, m)  (* no .items() *)
  end.

Section Ingestion.

Variable B : Builtins.

(** [AppBase.load_argv_mappings_from_file] *)
Definition load_argv_mappings_from_file (filename : pyval) (m : dict pyval)
    : outcome unit * dict pyval :=
  match json_load_file B filename with
  | Ok md_json =>
      match filename with
      | PStr f =>
          let m1 := set "--name"
                      (PStr (PyStr.before_first "." (PyStr.basename f))) m in
          load_argv_mappings_from_json md_json None m1
      | _ => (Raise TypeError, m)
      end
  | Raise e => (Raise e, m)
  | Exit msg h s => (Exit msg h s, m)
  end.

(** The state of the loop of [_get_argv_mappings]: the dict, the logger's
    level and the two noted arguments. *)
Record walk : Type := mkWalk {
  w_mappings : dict pyval;
  w_level : Z;
  w_log_option : option string;
  w_file_option : option string
}.

(** The body of [for arg in self.argv] *)
Definition walk_arg (arg : string) (w : walk) : outcome unit * walk :=
  let '(option, value) := split_arg arg in
  if String.eqb option "--debug" then
    (Ok tt, mkWalk (w_mappings w) logging_DEBUG (Some arg) (w_file_option w))
  else if String.eqb option "--log-level" then
    match checkLevel value with
    | Ok lvl => (Ok tt, mkWalk (w_mappings w) lvl (Some arg) (w_file_option w))
    | Raise e =>
        (Raise e, mkWalk (w_mappings w) (w_level w) (Some arg) (w_file_option w))
    | Exit msg h s =>
        (Exit msg h s, mkWalk (w_mappings w) (w_level w) (Some arg) (w_file_option w))
    end
  else if String.eqb option "--file" then
    let '(r, m) := load_argv_mappings_from_file value (w_mappings w) in
    (r, mkWalk m (w_level w) (w_log_option w) (Some arg))
  else
    (Ok tt, mkWalk (set option value (w_mappings w)) (w_level w)
                   (w_log_option w) (w_file_option w)).

Fixpoint walk_argv (args : list string) (w : walk) : outcome unit * walk :=
  match args with
  | [] => (Ok tt, w)
  | arg :: rest =>
      match walk_arg arg w with
      | (Ok _, w') => walk_argv rest w'
      | (r, w') => (r, w')
      end
  end.

(** [if noted: self.argv.remove(noted)] *)
Definition remove_noted (noted : option string) (l : list string)
    : outcome (list string) :=
  match noted with
  | None => Ok l
  | Some a =>
      if PyStr.is_empty a then Ok l
      else match list_remove a l with
           | Some l' => Ok l'
           | None => Raise ValueError
           end
  end.

(** [AppBase._get_argv_mappings] *)
Definition _get_argv_mappings (app : App) : outcome unit * App :=
  match walk_argv (argv app)
          (mkWalk (argv_mappings app) (log_level app) None None) with
  | (Ok _, w) =>
      match remove_noted (w_log_option w) (argv app) with
      | Ok l1 =>
          match remove_noted (w_file_option w) l1 with
          | Ok l2 => (Ok tt, mkApp l2 (w_mappings w) (w_level w))
          | Raise e => (Raise e, mkApp l1 (w_mappings w) (w_level w))
          | Exit msg h s => (Exit msg h s, mkApp l1 (w_mappings w) (w_level w))
          end
      | Raise e => (Raise e, mkApp (argv app) (w_mappings w) (w_level w))
      | Exit msg h s => (Exit msg h s, mkApp (argv app) (w_mappings w) (w_level w))
      end
  | (Raise e, w) => (Raise e, mkApp (argv app) (w_mappings w) (w_level w))
  | (Exit msg h s, w) => (Exit msg h s, mkApp (argv app) (w_mappings w) (w_level w))
  end.

(** [AppBase.__init__(argv=...)]: [shared] is the content of the class's
    [argv_mappings] dict when the instance is made, [level] the root
    logger's level. *)
Definition AppBase_init (argv : list string) (shared : dict pyval) (level : Z)
    : outcome unit * App :=
  _get_argv_mappings (mkApp argv shared level).

End Ingestion.

(* ================================================================== *)
(** * The resolver *)

(** [AppBase.has_help]: the keys of the mapping meet [{'--help', '-h'}]. *)
Definition has_help (app : App) : bool :=
  mem "--help" (argv_mappings app) || mem "-h" (argv_mappings app).

(** The argv entry [_remove_argv_entry] rebuilds from the mapping:
    [entry = cli_option], and [entry + '=' + value] when [value] is true.
    Adding a value that is not a string to a string raises. *)
Definition argv_entry (cli_option : string) (value : pyval) : outcome string :=
  if truthy value then
    match value with
    | PStr s => Ok (cli_option ++ "=" ++ s)
    | _ => Raise TypeError
    end
  else Ok cli_option.

(** [AppBase._remove_argv_entry] *)
Definition _remove_argv_entry (app : App) (cli_option : string)
    : outcome unit * App :=
  match get cli_option (argv_mappings app) with
  | None => (log_and_exit (Some (MsgCantFind cli_option)) 1 false, app)
  | Some value =>
      match argv_entry cli_option value with
      | Ok entry =>
          let argv1 :=
            if str_in entry (argv app) then
              match list_remove entry (argv app) with
              | Some l => l
              | None => argv app
              end
            else argv app in
          (Ok tt, mkApp argv1 (pop cli_option (argv_mappings app)) (log_level app))
      | Raise e => (Raise e, app)
      | Exit m h s => (Exit m h s, app)
      end
  end.

(** [option.cli_option.rsplit('.', 1)[0] + '.'] *)
Definition sub_option_prefix (o : Opt) : string :=
  PyStr.rsplit_head "." (cli_option o) ++ ".".

(** Some entry of the mapping starts with [pre] and has a value that is not
    [None]. *)
Definition sibling_has_value (pre : string) (m : dict pyval) : bool :=
  existsb (fun kv => PyStr.startswith (fst kv) pre && negb (is_none (snd kv))) m.

(** [AppBase.required_value_is_missing].  ['.' not in option.name] raises
    when the option has no name. *)
Definition required_value_is_missing (app : App) (o : Opt) : outcome bool * Opt :=
  if required o && is_none (value o) then
    match name o with
    | None => (Raise TypeError, o)
    | Some n =>
        if negb (PyStr.contains_char "." n) then (Ok true, o)
        else if sibling_has_value (sub_option_prefix o) (argv_mappings app)
             then (Ok true, o)
             else (Ok false, with_required o false)
    end
  else (Ok false, o).

Section Resolver.

(** The [set_value] method of the option at hand. *)
Variable set_value_method : Opt -> pyval -> outcome Opt.

(** The checks that follow [set_value] for an option that is not a
    flag: a required option needs a true value, and one of [one_of]
    when that list is not empty. *)
Definition check_required_value (o : Opt) : outcome unit :=
  if required o then
    if negb (truthy (value o)) then
      log_and_exit (Some (MsgRequiresValue (cli_option o))) 1 true
    else
      match one_of o with
      | Some ((_ :: _) as l) =>
          if negb (py_in (value o) l) then
            log_and_exit (Some (MsgRequiresOneOf (cli_option o) l)) 1 true
          else Ok tt
      | _ => Ok tt
      end
  else Ok tt.

(** [AppBase.process_cli_option(cli_option, check_help=False)] *)
Definition process_cli_option_with (check_help : bool) (app : App) (o : Opt)
    : outcome unit * App * Opt :=
  if check_help && has_help app then
    (log_and_exit None 1 true, app, o)
  else if processed o then (Ok tt, app, o)
  else
    let option := cli_option o in
    if mem option (argv_mappings app) then
      if is_Flag o then
        (* flags set their value opposite their default *)
        let o1 := with_value o (PBool (negb (truthy (default_value o)))) in
        match _remove_argv_entry app option with
        | (Ok _, app1) => (Ok tt, app1, with_processed o1 true)
        | (r, app1) => (r, app1, o1)
        end
      else
        match set_value_method o (dict_get_default option (argv_mappings app)) with
        | Ok o1 =>
            match check_required_value o1 with
            | Ok _ =>
                match _remove_argv_entry app option with
                | (Ok _, app1) => (Ok tt, app1, with_processed o1 true)
                | (r, app1) => (r, app1, o1)
                end
            | r => (r, app, o1)
            end
        | Raise e => (Raise e, app, o)
        | Exit m h s => (Exit m h s, app, o)
        end
    else
      match required_value_is_missing app o with
      | (Ok true, o1) =>
          match one_of o1 with
          | None =>
              (log_and_exit (Some (MsgRequiredParameter (cli_option o1))) 1 true,
               app, o1)
          | Some l =>
              (log_and_exit (Some (MsgRequiredParameterOneOf (cli_option o1) l)) 1 true,
               app, o1)
          end
      | (Ok false, o1) => (Ok tt, app, with_processed o1 true)
      | (Raise e, o1) => (Raise e, app, o1)
      | (Exit m h s, o1) => (Exit m h s, app, o1)
      end.

(** The loop [for option in cli_options: self.process_cli_option(option)]
    over a list of distinct [Option] objects, each held as a record of its
    own.  A list in which one object occurs more than once is the subject
    of [process_refs] below, which agrees with this loop on lists without
    repetition. *)
Fixpoint process_each (app : App) (os : list Opt)
    : outcome unit * App * list Opt :=
  match os with
  | [] => (Ok tt, app, [])
  | o :: rest =>
      match process_cli_option_with false app o with
      | (Ok _, app1, o1) =>
          let '(r, app2, rest') := process_each app1 rest in
          (r, app2, o1 :: rest')
      | (r, app1, o1) => (r, app1, o1 :: rest)
      end
  end.

(** [AppBase.process_cli_options] *)
Definition process_cli_options_with (app : App) (os : list Opt)
    : outcome unit * App * list Opt :=
  if has_help app then (log_and_exit None 1 true, app, os)
  else
    match process_each app os with
    | (Ok _, app1, os1) =>
        if (0 <? Z.of_nat (List.length (argv app1))) then
          (log_and_exit (Some (MsgUnexpected (argv app1))) 1 true, app1, os1)
        else (Ok tt, app1, os1)
    | r => r
    end.

End Resolver.

(** Resolution with the class's own [Option.set_value]. *)
Definition process_cli_option (B : Builtins) :=
  process_cli_option_with (set_value B).

Definition process_cli_options (B : Builtins) :=
  process_cli_options_with (set_value B).

(** ** The batch over shared option objects *)

(** [cli_options] is a list of references to [Option] objects, and
    [process_cli_option] mutates the object it is given: an object that
    occurs twice in the list is visited twice, and its second visit finds
    what the first one left.  A [store] gives the state of the object
    behind each reference. *)
Definition store := nat -> Opt.

Definition store_set (h : store) (i : nat) (o : Opt) : store :=
  fun j => if Nat.eqb j i then o else h j.

(** The loop [for option in cli_options: self.process_cli_option(option)] *)
Fixpoint process_refs (sv : Opt -> pyval -> outcome Opt) (app : App) (h : store)
    (refs : list nat) : outcome unit * App * store :=
  match refs with
  | [] => (Ok tt, app, h)
  | i :: rest =>
      match process_cli_option_with sv false app (h i) with
      | (Ok _, app1, o1) => process_refs sv app1 (store_set h i o1) rest
      | (r, app1, o1) => (r, app1, store_set h i o1)
      end
  end.

(** [AppBase.process_cli_options] *)
Definition process_cli_options_refs (sv : Opt -> pyval -> outcome Opt)
    (app : App) (h : store) (refs : list nat) : outcome unit * App * store :=
  if has_help app then (log_and_exit None 1 true, app, h)
  else
    match process_refs sv app h refs with
    | (Ok _, app1, h1) =>
        if (0 <? Z.of_nat (List.length (argv app1))) then
          (log_and_exit (Some (MsgUnexpected (argv app1))) 1 true, app1, h1)
        else (Ok tt, app1, h1)
    | r => r
    end.

(* ================================================================== *)
(** * The schema compiler *)

(** [(prefix + '.' + k) if prefix and prefix != 'metadata' else k] *)
Definition prefix_applies (prefix : option string) : option string :=
  match prefix with
  | Some p =>
      if negb (PyStr.is_empty p) && negb (String.eqb p "metadata") then Some p
      else None
  | None => None
  end.

Definition prefixed (prefix : option string) (k : string) : string :=
  match prefix_applies prefix with
  | Some p => p ++ "." ++ k
  | None => k
  end.

(** [v['type']] *)
Definition subscript_type (v : pyval) : outcome pyval :=
  match v with
  | PDict d => match get "type" d with
               | Some t => Ok t
               | None => Raise KeyError
               end
  | _ => Raise TypeError
  end.

(** [options[prefix] = MetadataSchemaProperty(prefix, schema)] on a fresh
    dict: the branch of a schema without ['properties']. *)
Definition leaf_option (prefix : option string) (schema : pyval)
    : outcome (dict Opt) :=
  match MetadataSchemaProperty prefix schema with
  | Ok o => match prefix with
            | Some p => Ok (set p o [])
            | None => Raise TypeError
            end
  | Raise e => Raise e
  | Exit m h s => Exit m h s
  end.

Section CompileProperties.

(** The recursive call [AppBase.schema_to_options] *)
Variable rec : pyval -> Z -> option string -> outcome (dict Opt).
Variables (level : Z) (prefix : option string).

(** The body of [for k, v in properties.items()] *)
Definition compile_property (options : dict Opt) (k : string) (v : pyval)
    : outcome (dict Opt) :=
  let prefixed_name := prefixed prefix k in
  if String.eqb k "schema_name" then Ok options  (* already have this option *)
  else
    match subscript_type v with
    | Ok t =>
        if py_eq t (PStr "object") then
          match rec v (level + 1) (Some prefixed_name) with
          | Ok sub => Ok (update options sub)
          | Raise e => Raise e
          | Exit m h s => Exit m h s
          end
        else
          match (if level =? 0 then SchemaProperty (Some prefixed_name) v
                 else MetadataSchemaProperty (Some prefixed_name) v) with
          | Ok o => Ok (set prefixed_name o options)
          | Raise e => Raise e
          | Exit m h s => Exit m h s
          end
    | Raise e => Raise e
    | Exit m h s => Exit m h s
    end.

Fixpoint compile_properties (items : list (string * pyval)) (options : dict Opt)
    : outcome (dict Opt) :=
  match items with
  | [] => Ok options
  | (k, v) :: rest =>
      match compile_property options k v with
      | Ok options' => compile_properties rest options'
      | Raise e => Raise e
      | Exit m h s => Exit m h s
      end
  end.

End CompileProperties.

(** What [for required in required_props] visits: the elements of a list,
    the characters of a string, the keys of a dict. *)
Definition py_iter (v : pyval) : outcome (list pyval) :=
  match v with
  | PList l => Ok l
  | PStr s => Ok (map PStr (PyStr.chars s))
  | PDict d => Ok (map PStr (keys d))
  | _ => Raise TypeError
  end.

(** The names that are never marked: [['schema_name', 'metadata']] *)
Definition skipped_required : list pyval := [PStr "schema_name"; PStr "metadata"].

(** The key [options.get] is called with for a required name: the name
    after the prefix when the prefix applies, else the name itself.  A name
    that is not a string cannot follow a prefix, and a list or a dict is no
    key; any other name is a key no option has. *)
Definition required_key (prefix : option string) (required : pyval)
    : outcome (option string) :=
  match prefix_applies prefix, required with
  | Some p, PStr r => Ok (Some (p ++ "." ++ r))
  | Some _, _ => Raise TypeError
  | None, PStr r => Ok (Some r)
  | None, (PList _ | PDict _) => Raise TypeError
  | None, _ => Ok None
  end.

(** The body of [for required in required_props]:
    [options.get(prefixed_name).required = True], where [get] gives [None]
    for a name without an option. *)
Definition mark_one (prefix : option string) (options : dict Opt) (required : pyval)
    : outcome (dict Opt) :=
  if py_in required skipped_required then Ok options
  else
    match required_key prefix required with
    | Ok (Some key) =>
        match get key options with
        | Some o => Ok (set key (with_required o true) options)
        | None => Raise AttributeError
        end
    | Ok None => Raise AttributeError
    | Raise e => Raise e
    | Exit m h s => Exit m h s
    end.

Fixpoint mark_all (prefix : option string) (reqs : list pyval) (options : dict Opt)
    : outcome (dict Opt) :=
  match reqs with
  | [] => Ok options
  | r :: rest =>
      match mark_one prefix options r with
      | Ok options' => mark_all prefix rest options'
      | Raise e => Raise e
      | Exit m h s => Exit m h s
      end
  end.

(** [required_props = schema.get('required')] and the loop under
    [if required_props:] *)
Definition mark_required (prefix : option string) (required_props : pyval)
    (options : dict Opt) : outcome (dict Opt) :=
  if truthy required_props then
    match py_iter required_props with
    | Ok reqs => mark_all prefix reqs options
    | Raise e => Raise e
    | Exit m h s => Exit m h s
    end
  else Ok options.

(** [AppBase.schema_to_options(schema, level=0, prefix=None)].  A schema
    that is not a dict raises at ['properties' in schema], at
    [schema['properties']] or in the constructor's [schema_property.get]. *)
Fixpoint schema_to_options (schema : pyval) (level : Z) (prefix : option string)
    {struct schema} : outcome (dict Opt) :=
  match schema with
  | PDict d =>
      lookup_case "properties"
        (fun properties =>
           match properties with
           | PDict props =>
               match compile_properties schema_to_options level prefix props [] with
               | Ok options =>
                   mark_required prefix (dict_get_default "required" d) options
               | Raise e => Raise e
               | Exit m h s => Exit m h s
               end
           | _ => Raise AttributeError  (* no .items() *)
           end)
        (leaf_option prefix schema)
        d
  | PStr s =>
      if PyStr.contains "properties" s then Raise TypeError
      else leaf_option prefix schema
  | PList l =>
      if py_in (PStr "properties") l then Raise TypeError
      else leaf_option prefix schema
  | _ => Raise TypeError
  end.

(* ================================================================== *)
(** * A small world for the examples

    Built-ins that are enough to run the definitions on concrete inputs:
    [int] reads an optionally signed run of decimal digits, [float] and
    [literal_eval] accept nothing, and the only file is [meta.json]. *)

Definition example_file : pyval :=
  PDict [("display_name", PStr "x");
         ("metadata", PDict [("count", PInt 3)]);
         ("schema_name", PStr "s")].

Definition example_builtins : Builtins :=
  mkBuiltins
    (fun _ => Raise SyntaxError)
    (fun v => match v with
              | PInt z => Ok z
              | PBool b => Ok (Z_of_bool b)
              | PStr s => match DecimalString.NilZero.int_of_string s with
                          | Some i => Ok (Z.of_int i)
                          | None => Raise ValueError
                          end
              | _ => Raise TypeError
              end)
    (fun _ => Raise ValueError)
    (fun _ => "?")
    (fun f => match f with
              | PStr "meta.json" => Ok example_file
              | PStr _ => Raise OSError
              | _ => Raise TypeError
              end).

(** A nested option [sub.b] as the schema compiler emits it, marked
    required, and two mappings: one where the sibling [--sub.a] was given,
    one where it was not. *)
Definition example_sub_b : Opt :=
  mkOpt ClsMetadataSchemaProperty "--sub.b" (Some "sub.b") PNone PNone PNone
        None true (PStr "string") false (Some (PDict [("type", PStr "string")])).

Definition example_app_sub_a : App :=
  mkApp ["--sub.a=5"] [("--sub.a", PStr "5")] logging_INFO.

Definition example_app_empty : App := mkApp [] [] logging_INFO.

(** A required option with a default, and a flag. *)
Definition example_port : Opt :=
  CliOption "--port" (Some "port") (PStr "the port") (PInt 8080) None true
            (PStr "integer").

Definition example_flag : Opt :=
  Flag "--json" (Some "json") (PStr "print as JSON") (PBool false) None false.

Definition example_app_json : App :=
  mkApp ["--json=no"] [("--json", PStr "no")] logging_INFO.

(** A command line with a token no option has. *)
Definition example_app_unknown : App :=
  mkApp ["--unknown=1"] [("--unknown", PStr "1")] logging_INFO.

(** An option with a list of allowed values, optional and required, and a
    command line that gives it a value outside the list. *)
Definition example_format : Opt :=
  CliOption "--format" (Some "format") (PStr "output format") PNone
            (Some [PStr "json"; PStr "yaml"]) false (PStr "string").

Definition example_format_required : Opt := with_required example_format true.

Definition example_app_format : App :=
  mkApp ["--format=xml"] [("--format", PStr "xml")] logging_INFO.

(** A required option given as a bare token, without a value. *)
Definition example_name : Opt :=
  CliOption "--name" (Some "name") (PStr "the name") PNone None true
            (PStr "string").

Definition example_app_bare_name : App :=
  mkApp ["--name"] [("--name", PNone)] logging_INFO.

(** An object-valued property with the single property [x], described by
    [leaf], and the required list [[x]]. *)
Definition object_requiring (x : string) (leaf : pyval) : pyval :=
  PDict [("type", PStr "object");
         ("properties", PDict [(x, leaf)]);
         ("required", PList [PStr x])].


(** A schema with further properties around [sub]. *)
Definition example_sibling_schema : pyval :=
  PDict [("properties",
          PDict [("display_name", PDict [("type", PStr "string")]);
                 ("sub", object_requiring "x" (PDict [("type", PStr "string")]));
                 ("count", PDict [("type", PStr "integer")])])].

(** No property of [after], compiled at [level] under [prefix], emits an
    option under the key [K]. *)
Definition no_later_collision (K : string) (level : Z) (prefix : option string)
    (after : list (string * pyval)) : Prop :=
  forall k v t,
    In (k, v) after -> k <> "schema_name" -> subscript_type v = Ok t ->
    (py_eq t (PStr "object") = false -> prefixed prefix k <> K) /\
    (py_eq t (PStr "object") = true ->
     forall sub, schema_to_options v (level + 1) (Some (prefixed prefix k)) = Ok sub ->
                 get K sub = None).




(** A vector that gives [--format] twice. *)
Definition example_argv_twice : list string := ["--format=json"; "--format=xml"].

(* ================================================================== *)
(** * Notions used in the statements *)

(** Some entry of the mapping has a key that starts with [pre] and a value
    that is not [None]. *)
Definition sibling_supplied (pre : string) (m : dict pyval) : Prop :=
  exists k v, In (k, v) m /\ PyStr.startswith k pre = true /\ v <> PNone.

(** The token of the command line that gave the mapping the value [raw]
    for [tok]. *)
Definition originating_token (tok : string) (raw : pyval) : string :=
  match raw with
  | PStr s => tok ++ "=" ++ s
  | _ => tok
  end.

(* ================================================================== *)
(** * Subcommands *)

(** What [get_subcommand] prints when it neither returns a subcommand nor
    exits: "Subcommand '{}' is invalid." *)
Inductive printed : Type :=
| SubcommandInvalid (arg : string).

Section Subcommands.

(** The values of the [subcommands] dict: a class with its description. *)
Variable V : Type.

(** [AppBase.get_subcommand]: the outcome, the application and what was
    printed.  [None] is returned when the vector is empty and when its
    first element is not a subcommand. *)
Definition get_subcommand (subcommands : dict V) (app : App)
    : outcome (option V) * App * list printed :=
  match argv app with
  | [] => (Ok None, app, [])
  | arg :: _ =>
      if mem arg subcommands then
        let subcommand := get arg subcommands in
        match _remove_argv_entry app arg with
        | (Ok _, app1) => (Ok subcommand, app1, [])
        | (Raise e, app1) => (Raise e, app1, [])
        | (Exit m h s, app1) => (Exit m h s, app1, [])
        end
      else if str_in arg ["--help"; "-h"] then
        (log_and_exit None 1 true, app, [])
      else (Ok None, app, [SubcommandInvalid arg])
  end.

End Subcommands.

(* ================================================================== *)
(** * Further notions used in the statements *)

(** A token that [_get_argv_mappings] treats on its own: [--debug],
    [--log-level] and [--file], with or without a value. *)
Definition special_token (arg : string) : bool :=
  let option := fst (split_arg arg) in
  String.eqb option "--debug" || String.eqb option "--log-level" ||
  String.eqb option "--file".

Definition plain_tokens (args : list string) : Prop :=
  forall a, In a args -> special_token a = false.

(** The mapping after the assignments [argv_mappings[option] = value] for
    the tokens of [args], in order. *)
Definition map_args (args : list string) (m : dict pyval) : dict pyval :=
  fold_left (fun acc a => set (fst (split_arg a)) (snd (split_arg a)) acc) args m.

(** A token of the help option. *)
Definition help_token (arg : string) : Prop :=
  fst (split_arg arg) = "--help" \/ fst (split_arg arg) = "-h".

Definition is_dict (v : pyval) : bool :=
  match v with PDict _ => true | _ => false end.

(** A JSON object without object-valued items and without a [metadata]
    key. *)
Definition flat_items (items : list (string * pyval)) : Prop :=
  forall k v, In (k, v) items -> is_dict v = false /\ k <> "metadata".

(** The option token a key of a JSON file is mapped under. *)
Definition file_token (prefix : option string) (k : string) : string :=
  "--" ++ join_prefix prefix k.

(** What every option the schema compiler emits under the key [k]
    satisfies. *)
Definition keyed_as (k : string) (o : Opt) : Prop :=
  name o = Some k /\ cli_option o = "--" ++ k /\
  value o = default_value o /\ processed o = false /\ one_of o = None.

(** The fields of an option that resolution never assigns. *)
Definition same_identity (o o1 : Opt) : Prop :=
  cls o1 = cls o /\ cli_option o1 = cli_option o /\ name o1 = name o /\
  description o1 = description o /\ default_value o1 = default_value o /\
  one_of o1 = one_of o /\ type_ o1 = type_ o /\
  schema_property o1 = schema_property o.

(** The application [app1] holds no more than [app]: no new token, no new
    or changed entry, the same logger level. *)
Definition shrinks (app app1 : App) : Prop :=
  (forall a, In a (argv app1) -> In a (argv app)) /\
  (List.length (argv app1) <= List.length (argv app))%nat /\
  (forall k v, get k (argv_mappings app1) = Some v ->
               get k (argv_mappings app) = Some v) /\
  log_level app1 = log_level app.

(** A required option whose token is not [--] followed by its name. *)
Definition example_subb : Opt :=
  CliOption "--subb" (Some "sub.b") PNone PNone None true (PStr "string").

(** Further inputs for the examples. *)
Definition example_count : Opt :=
  mkOpt ClsMetadataSchemaProperty "--count" (Some "count") PNone PNone PNone
        None true (PStr "number") false (Some (PDict [("type", PStr "number")])).

Definition example_sub_a : Opt :=
  mkOpt ClsMetadataSchemaProperty "--sub.a" (Some "sub.a") PNone PNone PNone
        None true (PStr "string") false (Some (PDict [("type", PStr "string")])).

(** Three option objects behind the references 0, 1 and 2. *)
Definition example_store : store :=
  fun i => match i with
           | O => example_flag
           | S O => example_name
           | _ => example_format
           end.

Definition example_subcommands : dict string :=
  [("list", "List installed metadata"); ("install", "Install metadata")].

Definition example_flat_schema : pyval :=
  PDict [("properties",
          PDict [("schema_name", PDict [("type", PStr "string")]);
                 ("display_name", PDict [("type", PStr "string")]);
                 ("metadata",
                  PDict [("type", PStr "object");
                         ("properties",
                          PDict [("count", PDict [("type", PStr "number")])])])]);
         ("required", PList [PStr "schema_name"; PStr "display_name";
                             PStr "metadata"])].

(** The options [example_flat_schema] compiles to. *)
Definition example_compiled_count : Opt :=
  mkOpt ClsMetadataSchemaProperty "--count" (Some "count") PNone PNone PNone
        None false (PStr "number") false (Some (PDict [("type", PStr "number")])).

Definition example_flat_options : dict Opt :=
  [("display_name",
    mkOpt ClsSchemaProperty "--display_name" (Some "display_name") PNone PNone
          PNone None true (PStr "string") false
          (Some (PDict [("type", PStr "string")])));
   ("count", example_compiled_count)].

(* ================================================================== *)
(** * Facts about dicts, lists and strings *)

Section DictFacts.
Variable V : Type.
Implicit Types (d : dict V) (k : string).

Lemma lookup_case_get (R : Type) k (found : V -> R) (missing : R) d :
  lookup_case k found missing d =
  match get k d with Some v => found v | None => missing end.
Proof.
  induction d as [|[k' v] d IH]; simpl; [reflexivity|].
  destruct (String.eqb k' k); [reflexivity | exact IH].
Qed.

Lemma get_pop_same k d : get k (pop k d) = None.
Proof.
  induction d as [|[k' v] d IH]; simpl; [reflexivity|].
  destruct (String.eqb k' k) eqn:E; simpl; [exact IH|].
  rewrite E. exact IH.
Qed.

Lemma get_pop_other k k' d : k' <> k -> get k' (pop k d) = get k' d.
Proof.
  intros Hne. induction d as [|[k0 v] d IH]; simpl; [reflexivity|].
  destruct (String.eqb k0 k) eqn:E; simpl.
  - apply String.eqb_eq in E. subst k0.
    destruct (String.eqb k k') eqn:E'; [|exact IH].
    apply String.eqb_eq in E'. congruence.
  - rewrite IH. reflexivity.
Qed.

Lemma mem_pop_same k d : mem k (pop k d) = false.
Proof. unfold mem. rewrite get_pop_same. reflexivity. Qed.

Lemma mem_pop_false k k' d : mem k' d = false -> mem k' (pop k d) = false.
Proof.
  unfold mem. destruct (String.eqb k' k) eqn:E.
  - apply String.eqb_eq in E. subst. rewrite get_pop_same. reflexivity.
  - apply String.eqb_neq in E. rewrite (get_pop_other d E). trivial.
Qed.

Lemma get_set_same k (v : V) d : get k (set k v d) = Some v.
Proof.
  induction d as [|[k' v'] d IH]; simpl.
  - rewrite String.eqb_refl. reflexivity.
  - destruct (String.eqb k' k) eqn:E; simpl; rewrite E; [reflexivity | exact IH].
Qed.

Lemma get_set_other k k' (v : V) d : k' <> k -> get k' (set k v d) = get k' d.
Proof.
  intros Hne. induction d as [|[k0 v0] d IH]; simpl.
  - destruct (String.eqb k k') eqn:E; [|reflexivity].
    apply String.eqb_eq in E. congruence.
  - destruct (String.eqb k0 k) eqn:E; simpl.
    + apply String.eqb_eq in E. subst k0.
      destruct (String.eqb k k') eqn:E'; [|reflexivity].
      apply String.eqb_eq in E'. congruence.
    + rewrite IH. reflexivity.
Qed.

Lemma mem_get_in k d : mem k d = true -> exists v, get k d = Some v.
Proof. unfold mem. destruct (get k d) as [v|]; [eauto | discriminate]. Qed.

End DictFacts.

(* ================================================================== *)
(** * The missing-required check and the dotted exemption *)

Lemma is_none_false (v : pyval) : is_none v = false <-> v <> PNone.
Proof. destruct v; simpl; split; intros; congruence. Qed.

Lemma sibling_has_value_iff pre m :
  sibling_has_value pre m = true <-> sibling_supplied pre m.
Proof.
  unfold sibling_has_value, sibling_supplied. rewrite existsb_exists. split.
  - intros [[k v] [Hin Hb]]. simpl in Hb.
    apply andb_true_iff in Hb. destruct Hb as [Hp Hn].
    exists k, v. repeat split; trivial.
    apply is_none_false. now apply negb_true_iff.
  - intros (k & v & Hin & Hp & Hn). exists (k, v). split; trivial. simpl.
    rewrite Hp. apply is_none_false in Hn. now rewrite Hn.
Qed.

Lemma sibling_has_value_false pre m :
  sibling_has_value pre m = false <-> ~ sibling_supplied pre m.
Proof.
  rewrite <- sibling_has_value_iff.
  destruct (sibling_has_value pre m); split; intros; congruence.
Qed.

(** For a token [--name] the prefix the code computes from the token is
    [--] followed by the dotted name without its last segment and a dot. *)
Lemma sub_option_prefix_of_name (o : Opt) (n : string) :
  cli_option o = "--" ++ n ->
  PyStr.contains_char "." n = true ->
  sub_option_prefix o = "--" ++ PyStr.rsplit_head "." n ++ ".".
Proof.
  intros Htok Hdot. unfold sub_option_prefix. rewrite Htok. simpl.
  rewrite Hdot. reflexivity.
Qed.

Section ResolverFacts.

Variable sv : Opt -> pyval -> outcome Opt.

Lemma process_unprocessed_absent check app o :
  check && has_help app = false ->
  processed o = false ->
  mem (cli_option o) (argv_mappings app) = false ->
  process_cli_option_with sv check app o =
  match required_value_is_missing app o with
  | (Ok true, o1) =>
      match one_of o1 with
      | None =>
          (Exit (Some (MsgRequiredParameter (cli_option o1))) true 1, app, o1)
      | Some l =>
          (Exit (Some (MsgRequiredParameterOneOf (cli_option o1) l)) true 1, app, o1)
      end
  | (Ok false, o1) => (Ok tt, app, with_processed o1 true)
  | (Raise e, o1) => (Raise e, app, o1)
  | (Exit m h s, o1) => (Exit m h s, app, o1)
  end.
Proof.
  intros Hh Hp Hm. unfold process_cli_option_with.
  rewrite Hh, Hp, Hm. reflexivity.
Qed.

Lemma missing_required_exit app o :
  MissingRequiredError (cli_option o)
    (fst (fst (match one_of o return outcome unit * App * Opt with
               | None =>
                   (Exit (Some (MsgRequiredParameter (cli_option o))) true 1, app, o)
               | Some l =>
                   (Exit (Some (MsgRequiredParameterOneOf (cli_option o) l)) true 1, app, o)
               end))).
Proof.
  destruct (one_of o) as [l|]; simpl.
  - right. exists 1, l. split; [reflexivity | lia].
  - left. exists 1. split; [reflexivity | lia].
Qed.

End ResolverFacts.

(** The exemption as the code computes it, for any token: the prefix is
    [sub_option_prefix], taken from the token. *)
Lemma exemption_by_token_prefix
    (sv : Opt -> pyval -> outcome Opt) (check : bool) (app : App) (o : Opt)
    (n : string) :
  check && has_help app = false ->
  processed o = false ->
  mem (cli_option o) (argv_mappings app) = false ->
  required o = true ->
  value o = PNone ->
  name o = Some n ->
  let run := process_cli_option_with sv check app o in
  (PyStr.contains_char "." n = true ->
     (sibling_supplied (sub_option_prefix o) (argv_mappings app) ->
        MissingRequiredError (cli_option o) (fst (fst run)) /\
        snd (fst run) = app /\ snd run = o) /\
     (~ sibling_supplied (sub_option_prefix o) (argv_mappings app) ->
        run = (Ok tt, app, with_processed (with_required o false) true) /\
        required (snd run) = false)) /\
  (PyStr.contains_char "." n = false ->
     MissingRequiredError (cli_option o) (fst (fst run)) /\
     snd (fst run) = app /\ snd run = o).
Proof.
  intros Hh Hp Hm Hr Hv Hn run. subst run.
  rewrite (process_unprocessed_absent sv check app o Hh Hp Hm).
  unfold required_value_is_missing. rewrite Hr, Hv, Hn. simpl.
  split.
  - intros Hdot. rewrite Hdot. simpl. split.
    + intros Hs. apply sibling_has_value_iff in Hs. rewrite Hs.
      split; [apply missing_required_exit|].
      destruct (one_of o); split; reflexivity.
    + intros Hs. apply sibling_has_value_false in Hs. rewrite Hs.
      split; reflexivity.
  - intros Hdot. rewrite Hdot. simpl.
    split; [apply missing_required_exit|].
    destruct (one_of o); split; reflexivity.
Qed.

Lemma contains_char_after c p last :
  PyStr.contains_char c (p ++ String c last) = true.
Proof.
  induction p as [|a p IH]; simpl.
  - rewrite Ascii.eqb_refl. reflexivity.
  - rewrite IH. apply orb_true_r.
Qed.

(** [(p + c + last).rsplit(c, 1)[0]] is [p] when [last] has no [c]. *)
Lemma rsplit_head_append c p last :
  PyStr.contains_char c last = false ->
  PyStr.rsplit_head c (p ++ String c last) = p.
Proof.
  intros Hl. induction p as [|a p IH]; simpl.
  - rewrite Hl, Ascii.eqb_refl. reflexivity.
  - rewrite contains_char_after, IH. reflexivity.
Qed.

Lemma str_append_assoc (a b c : string) : (a ++ b) ++ c = a ++ (b ++ c).
Proof. induction a as [|x a IH]; simpl; [reflexivity | rewrite IH; reflexivity]. Qed.

(** [k.startswith(pre)] says that [k] is [pre] followed by some text. *)
Lemma startswith_iff k pre :
  PyStr.startswith k pre = true <-> exists rest, k = pre ++ rest.
Proof.
  unfold PyStr.startswith. revert k. induction pre as [|a pre IH]; intros k.
  - destruct k; simpl; split; eauto.
  - destruct k as [|b k]; simpl.
    + split; [discriminate|]. intros [rest H]. discriminate H.
    + destruct (ascii_dec a b) as [->|Hne].
      * rewrite IH. split; intros [rest H]; exists rest.
        -- rewrite H. reflexivity.
        -- injection H as H. exact H.
      * split; [discriminate|]. intros [rest H]. injection H as H _.
        congruence.
Qed.

(** For a token [--p.last] the code's prefix is [--p.]: the token without
    its last segment, with the dot. *)
Lemma sub_option_prefix_of_token (o : Opt) (p last : string) :
  cli_option o = "--" ++ p ++ "." ++ last ->
  PyStr.contains_char "." last = false ->
  sub_option_prefix o = "--" ++ p ++ ".".
Proof.
  intros Htok Hl. unfold sub_option_prefix. rewrite Htok.
  change ("--" ++ p ++ "." ++ last) with (("--" ++ p) ++ String "." last).
  rewrite rsplit_head_append by exact Hl. reflexivity.
Qed.

(** The counterexample to C1: the option named [sub.b] has the token
    [--subb].  The mapping holds [--sub.a=5], an entry under the prefix
    [--sub.] of the dotted name, with a value; the code takes the prefix
    from the token, [--subb.], finds no sibling, and resolution returns with
    the option demoted instead of failing. *)
Lemma name_prefix_is_not_consulted :
  name example_subb = Some "sub.b" /\
  required example_subb = true /\
  value example_subb = PNone /\
  processed example_subb = false /\
  mem (cli_option example_subb) (argv_mappings example_app_sub_a) = false /\
  In ("--sub.a", PStr "5") (argv_mappings example_app_sub_a) /\
  PyStr.startswith "--sub.a" ("--" ++ PyStr.rsplit_head "." "sub.b" ++ ".") = true /\
  process_cli_option example_builtins false example_app_sub_a example_subb =
    (Ok tt, example_app_sub_a,
     with_processed (with_required example_subb false) true) /\
  ~ MissingRequiredError "--subb"
      (fst (fst (process_cli_option example_builtins false example_app_sub_a
                   example_subb))).
Proof.
  repeat split; try reflexivity.
  - simpl. left. reflexivity.
  - intros [(st & H & _) | (st & l & H & _)]; discriminate H.
Qed.

(** A required option without a name, with no value and a token that is
    not in the mapping: ['.' not in option.name] raises [TypeError], and
    the option and the application are as they were.  C1 speaks of options
    that have a name. *)
Lemma nameless_required_option_raises
    (sv : Opt -> pyval -> outcome Opt) (check : bool) (app : App) (o : Opt) :
  check && has_help app = false ->
  processed o = false ->
  mem (cli_option o) (argv_mappings app) = false ->
  required o = true ->
  value o = PNone ->
  name o = None ->
  process_cli_option_with sv check app o = (Raise TypeError, app, o).
Proof.
  intros Hh Hp Hm Hr Hv Hn.
  unfold process_cli_option_with, required_value_is_missing.
  rewrite Hh, Hp, Hm, Hr, Hv, Hn. reflexivity.
Qed.

(** C1, amended.  An unprocessed required option that has a name and no
    value, whose token is not in the mapping.  With a name without a dot,
    resolution always fails with the missing-required error.  With the
    dotted name [p.last] and the token [--p.last], resolution fails with the
    missing-required error when some entry of the mapping has a key
    [--p.] followed by anything and a value other than [None]; otherwise
    the option's [required] is set to [False] for good and resolution
    returns.  A failure leaves the option and the application as they
    were. *)
Theorem dotted_sub_object_exemption
    (sv : Opt -> pyval -> outcome Opt) (check : bool) (app : App) (o : Opt)
    (n : string) :
  check && has_help app = false ->
  processed o = false ->
  mem (cli_option o) (argv_mappings app) = false ->
  required o = true ->
  value o = PNone ->
  name o = Some n ->
  let run := process_cli_option_with sv check app o in
  (PyStr.contains_char "." n = false ->
     MissingRequiredError (cli_option o) (fst (fst run)) /\
     snd (fst run) = app /\ snd run = o) /\
  (forall p last,
     n = p ++ "." ++ last ->
     PyStr.contains_char "." last = false ->
     cli_option o = "--" ++ n ->
     ((exists k v rest,
         In (k, v) (argv_mappings app) /\
         k = "--" ++ p ++ "." ++ rest /\ v <> PNone) ->
      MissingRequiredError (cli_option o) (fst (fst run)) /\
      snd (fst run) = app /\ snd run = o) /\
     (~ (exists k v rest,
           In (k, v) (argv_mappings app) /\
           k = "--" ++ p ++ "." ++ rest /\ v <> PNone) ->
      run = (Ok tt, app, with_processed (with_required o false) true) /\
      required (snd run) = false)).
Proof.
  intros Hh Hp Hm Hr Hv Hn run.
  destruct (@exemption_by_token_prefix sv check app o n Hh Hp Hm Hr Hv Hn)
    as [Hdotted Hplain].
  split; [exact Hplain|].
  intros p last En Hl Htok.
  assert (Hdot : PyStr.contains_char "." n = true).
  { rewrite En. apply contains_char_after. }
  assert (Hpre : sub_option_prefix o = "--" ++ p ++ ".").
  { apply sub_option_prefix_of_token with (last := last); [|exact Hl].
    rewrite Htok, En. reflexivity. }
  assert (Hiff : sibling_supplied (sub_option_prefix o) (argv_mappings app) <->
                 exists k v rest,
                   In (k, v) (argv_mappings app) /\
                   k = "--" ++ p ++ "." ++ rest /\ v <> PNone).
  { unfold sibling_supplied. rewrite Hpre. split.
    - intros (k & v & Hin & Hs & Hv'). apply startswith_iff in Hs.
      destruct Hs as [rest Hk]. exists k, v, rest.
      split; [exact Hin|]. split; [|exact Hv'].
      rewrite Hk. simpl. rewrite str_append_assoc. reflexivity.
    - intros (k & v & rest & Hin & Hk & Hv'). exists k, v.
      split; [exact Hin|]. split; [|exact Hv'].
      apply startswith_iff. exists rest.
      rewrite Hk. simpl. rewrite str_append_assoc. reflexivity. }
  destruct (Hdotted Hdot) as [Hfail Hdemote]. split.
  - intros Hs. apply Hfail. apply Hiff. exact Hs.
  - intros Hs. apply Hdemote. intros Hs'. apply Hs. apply Hiff. exact Hs'.
Qed.

(** The sibling [--sub.a=5] is in the mapping: resolving [sub.b], whose
    token is [--sub.b], fails. *)
Lemma dotted_sub_object_exemption_witness :
  MissingRequiredError "--sub.b"
    (fst (fst (process_cli_option example_builtins false example_app_sub_a
                 example_sub_b))).
Proof.
  refine (proj1 (proj1 (proj2 (dotted_sub_object_exemption
            (set_value example_builtins) false example_app_sub_a example_sub_b
            (n := "sub.b") _ _ _ _ _ _) "sub" "b" _ _ _) _)).
  - reflexivity.
  - reflexivity.
  - reflexivity.
  - reflexivity.
  - reflexivity.
  - reflexivity.
  - reflexivity.
  - reflexivity.
  - reflexivity.
  - exists "--sub.a", (PStr "5"), "a".
    split; [left; reflexivity|]. split; [reflexivity | discriminate].
Defined.

(* ================================================================== *)
(** * Defaults and the missing-required check *)

Lemma Option_init_seeds_value c tok nm desc dflt oo req ty :
  value (Option_init c tok nm desc dflt oo req ty) = dflt /\
  processed (Option_init c tok nm desc dflt oo req ty) = false.
Proof. split; reflexivity. Qed.

Lemma SchemaProperty_init_seeds_value c nm sp o :
  SchemaProperty_init c nm sp = Ok o ->
  value o = default_value o /\ processed o = false /\ required o = false.
Proof.
  unfold SchemaProperty_init. destruct nm as [n|]; [|discriminate].
  destruct sp; try discriminate. intros H. injection H as <-.
  repeat split.
Qed.

(** C10.  The missing-required check answers [False] for every option whose
    value is not [None]; so an unprocessed required option that still holds
    a default other than [None], and whose token is not in the mapping, is
    resolved without any error and keeps the default as its value. *)
Theorem required_with_default_never_missing
    (sv : Opt -> pyval -> outcome Opt) (check : bool) (app : App) (o : Opt) :
  check && has_help app = false ->
  processed o = false ->
  required o = true ->
  value o = default_value o ->
  default_value o <> PNone ->
  mem (cli_option o) (argv_mappings app) = false ->
  required_value_is_missing app o = (Ok false, o) /\
  process_cli_option_with sv check app o = (Ok tt, app, with_processed o true) /\
  value (snd (process_cli_option_with sv check app o)) = default_value o.
Proof.
  intros Hh Hp Hr Hv Hd Hm.
  assert (Hmiss : required_value_is_missing app o = (Ok false, o)).
  { unfold required_value_is_missing. rewrite Hv.
    apply is_none_false in Hd. rewrite Hd, andb_false_r. reflexivity. }
  rewrite (process_unprocessed_absent sv check app o Hh Hp Hm), Hmiss.
  simpl. auto.
Qed.

(** [--port] is required and has the default 8080: with an empty command
    line it resolves to 8080. *)
Lemma required_with_default_never_missing_witness :
  process_cli_option example_builtins false example_app_empty example_port =
  (Ok tt, example_app_empty, with_processed example_port true) /\
  value (snd (process_cli_option example_builtins false example_app_empty
                example_port)) = PInt 8080.
Proof.
  refine (proj2 (required_with_default_never_missing
            (set_value example_builtins) false example_app_empty example_port
            _ _ _ _ _ _)).
  - reflexivity.
  - reflexivity.
  - reflexivity.
  - reflexivity.
  - discriminate.
  - reflexivity.
Defined.

(* ================================================================== *)
(** * Removing an entry *)

Lemma remove_argv_entry_cases app tok :
  (exists l, _remove_argv_entry app tok =
             (Ok tt, mkApp l (pop tok (argv_mappings app)) (log_level app))) \/
  (exists r, _remove_argv_entry app tok = (r, app) /\ is_ok r = false).
Proof.
  unfold _remove_argv_entry.
  destruct (get tok (argv_mappings app)) as [v|].
  - destruct (argv_entry tok v) as [entry|e|m h st].
    + left. eexists. reflexivity.
    + right. eexists. split; reflexivity.
    + right. eexists. split; reflexivity.
  - right. eexists. split; reflexivity.
Qed.

Lemma has_help_after_pop l tok app :
  has_help app = false ->
  has_help (mkApp l (pop tok (argv_mappings app)) (log_level app)) = false.
Proof.
  unfold has_help. simpl. intros H. apply orb_false_iff in H.
  destruct H as [H1 H2].
  rewrite !mem_pop_false by assumption. reflexivity.
Qed.

Lemma required_value_is_missing_spec app o :
  required_value_is_missing app o = (Ok true, o) \/
  required_value_is_missing app o = (Raise TypeError, o) \/
  required_value_is_missing app o = (Ok false, o) \/
  required_value_is_missing app o = (Ok false, with_required o false).
Proof.
  unfold required_value_is_missing.
  destruct (required o && is_none (value o)); [|auto].
  destruct (name o) as [n|]; [|auto].
  destruct (negb (PyStr.contains_char "." n)); [auto|].
  destruct (sibling_has_value _ _); auto.
Qed.

(* ================================================================== *)
(** * Flags *)

(** C6.  A flag as its constructor makes it, resolved when no help exit
    is taken: when its token is in the mapping its value becomes
    [not default_value], whatever the mapping holds for the token, and
    resolution returns when that is [None] or a string; when its token is
    not in the mapping its value stays [default_value]; and the outcome is
    the same for every [set_value] method, so the method is never called. *)
Theorem flag_semantics
    (sv : Opt -> pyval -> outcome Opt) (check : bool) (app : App)
    (flag : string) (nm : option string) (desc dflt : pyval)
    (oo : option (list pyval)) (req : bool) :
  check && has_help app = false ->
  let o := Flag flag nm desc dflt oo req in
  let run := process_cli_option_with sv check app o in
  (mem flag (argv_mappings app) = true ->
     value (snd run) = PBool (negb (truthy dflt)) /\
     forall raw, get flag (argv_mappings app) = Some raw ->
                 (raw = PNone \/ exists s, raw = PStr s) ->
                 fst (fst run) = Ok tt /\ processed (snd run) = true) /\
  (mem flag (argv_mappings app) = false -> value (snd run) = dflt) /\
  (forall sv', process_cli_option_with sv' check app o = run).
Proof.
  intros Hh o run. subst run. unfold process_cli_option_with.
  rewrite Hh. simpl. split; [|split].
  - intros Hm. rewrite Hm. split.
    + destruct (_remove_argv_entry app flag) as [[u|e|m h st] app1]; reflexivity.
    + intros raw Hg Hraw. unfold _remove_argv_entry. rewrite Hg.
      destruct Hraw as [-> | [s ->]]; [split; reflexivity|].
      unfold argv_entry. destruct (truthy (PStr s)); split; reflexivity.
  - intros Hm. rewrite Hm.
    destruct (required_value_is_missing_spec app o) as [E|[E|[E|E]]];
      rewrite E; simpl; try reflexivity.
    destruct oo; reflexivity.
  - reflexivity.
Qed.

(** [--json=no] is in the mapping: the flag's value is the negation of its
    default [False], whatever follows the [=]. *)
Lemma flag_semantics_witness :
  value (snd (process_cli_option example_builtins false example_app_json
                example_flag)) = PBool true.
Proof.
  refine (proj1 (proj1 (flag_semantics (set_value example_builtins) false
            example_app_json "--json" (Some "json") (PStr "print as JSON")
            (PBool false) None false _) _)).
  - reflexivity.
  - reflexivity.
Defined.

(* ================================================================== *)
(** * Resolving twice *)

Lemma coerce_with_value B o v raw : coerce B (with_value o v) raw = coerce B o raw.
Proof. reflexivity. Qed.

Lemma set_value_twice B o raw o1 :
  set_value B o raw = Ok o1 -> set_value B o1 raw = Ok o1.
Proof.
  unfold set_value. destruct (coerce B o raw) as [v|e|m h st] eqn:E;
    try discriminate.
  intros H. injection H as <-. rewrite coerce_with_value, E. reflexivity.
Qed.

Lemma set_value_keeps B o raw o1 :
  set_value B o raw = Ok o1 ->
  cli_option o1 = cli_option o /\ processed o1 = processed o /\
  is_Flag o1 = is_Flag o.
Proof.
  unfold set_value. destruct (coerce B o raw); try discriminate.
  intros H. injection H as <-. repeat split.
Qed.

Lemma help_check_after_pop check l tok app :
  check && has_help app = false ->
  check && has_help (mkApp l (pop tok (argv_mappings app)) (log_level app)) = false.
Proof.
  destruct check; simpl; [apply has_help_after_pop | reflexivity].
Qed.

(** C7.  Resolving an option a second time, in the state the first
    resolution left, ends as the first one did and changes nothing: after
    a resolution that returned, [processed] is true and the second is a
    no-op; after one that failed, the second fails the same way. *)
Theorem process_cli_option_idempotent
    (B : Builtins) (check : bool) (app : App) (o : Opt) :
  let run := process_cli_option B check app o in
  process_cli_option B check (snd (fst run)) (snd run) = run.
Proof.
  simpl. unfold process_cli_option.
  destruct (check && has_help app) eqn:Hh.
  { unfold process_cli_option_with. rewrite Hh. simpl. rewrite Hh. reflexivity. }
  destruct (processed o) eqn:Hp.
  { unfold process_cli_option_with. rewrite Hh, Hp. simpl. rewrite Hh, Hp.
    reflexivity. }
  destruct (mem (cli_option o) (argv_mappings app)) eqn:Hm.
  - unfold process_cli_option_with at 2 3 4. rewrite Hh, Hp, Hm.
    destruct (is_Flag o) eqn:Hf.
    + destruct (remove_argv_entry_cases app (cli_option o))
        as [[l E] | [r [E Hr]]]; rewrite E.
      * simpl. unfold process_cli_option_with.
        rewrite help_check_after_pop by exact Hh. reflexivity.
      * assert (Hrun :
          process_cli_option_with (set_value B) check app
            (with_value o (PBool (negb (truthy (default_value o))))) =
          (r, app, with_value o (PBool (negb (truthy (default_value o)))))).
        { unfold process_cli_option_with. rewrite Hh.
          change (processed (with_value o _)) with (processed o).
          change (cli_option (with_value o _)) with (cli_option o).
          change (is_Flag (with_value o _)) with (is_Flag o).
          rewrite Hp, Hm, Hf, E. destruct r; try discriminate; reflexivity. }
        destruct r; try discriminate; simpl; exact Hrun.
    + destruct (set_value B o (dict_get_default (cli_option o) (argv_mappings app)))
        as [o1|e|m h st] eqn:Es.
      * pose proof (set_value_twice _ _ _ Es) as Es2.
        destruct (set_value_keeps _ _ _ Es) as (Kc & Kp & Kf).
        destruct (check_required_value o1) as [u|e|m h st] eqn:Ec.
        -- destruct (remove_argv_entry_cases app (cli_option o))
             as [[l E] | [r [E Hr]]]; rewrite E.
           ++ simpl. unfold process_cli_option_with.
              rewrite help_check_after_pop by exact Hh. reflexivity.
           ++ assert (Hrun :
                process_cli_option_with (set_value B) check app o1 = (r, app, o1)).
              { unfold process_cli_option_with.
                rewrite Hh, Kp, Hp, Kc, Hm, Kf, Hf, Es2, Ec, E.
                destruct r; try discriminate; reflexivity. }
              destruct r; try discriminate; simpl; exact Hrun.
        -- simpl. unfold process_cli_option_with.
           rewrite Hh, Kp, Hp, Kc, Hm, Kf, Hf, Es2, Ec. reflexivity.
        -- simpl. unfold process_cli_option_with.
           rewrite Hh, Kp, Hp, Kc, Hm, Kf, Hf, Es2, Ec. reflexivity.
      * simpl. unfold process_cli_option_with.
        rewrite Hh, Hp, Hm, Hf, Es. reflexivity.
      * simpl. unfold process_cli_option_with.
        rewrite Hh, Hp, Hm, Hf, Es. reflexivity.
  - rewrite !(process_unprocessed_absent (set_value B) check app o Hh Hp Hm).
    destruct (required_value_is_missing_spec app o) as [E|[E|[E|E]]]; rewrite E.
    + destruct (one_of o) eqn:Eo; simpl;
        rewrite (process_unprocessed_absent (set_value B) check app o Hh Hp Hm), E, Eo;
        reflexivity.
    + simpl.
      rewrite (process_unprocessed_absent (set_value B) check app o Hh Hp Hm), E.
      reflexivity.
    + simpl. unfold process_cli_option_with. rewrite Hh. reflexivity.
    + simpl. unfold process_cli_option_with. rewrite Hh. reflexivity.
Qed.

(* ================================================================== *)
(** * Batch resolution *)

Lemma process_ok_processed sv check app o u app1 o1 :
  process_cli_option_with sv check app o = (Ok u, app1, o1) ->
  processed o1 = true.
Proof.
  unfold process_cli_option_with.
  destruct (check && has_help app); [discriminate|].
  destruct (processed o) eqn:Hp.
  { intros H. injection H as _ _ <-. exact Hp. }
  destruct (mem (cli_option o) (argv_mappings app)).
  - destruct (is_Flag o).
    + destruct (_remove_argv_entry app (cli_option o)) as [[v|e|m h st] a1];
        intros H; try discriminate. injection H as _ _ <-. reflexivity.
    + destruct (sv o _) as [o2|e|m h st]; try discriminate.
      destruct (check_required_value o2) as [v|e|m h st]; try discriminate.
      destruct (_remove_argv_entry app (cli_option o)) as [[v'|e|m h st] a1];
        intros H; try discriminate. injection H as _ _ <-. reflexivity.
  - destruct (required_value_is_missing app o) as [[[|]|e|m h st] o2];
      try discriminate.
    + destruct (one_of o2); discriminate.
    + intros H. injection H as _ _ <-. reflexivity.
Qed.

Lemma process_each_all_processed sv os : forall app app1 os1 u,
  process_each sv app os = (Ok u, app1, os1) ->
  Forall (fun o => processed o = true) os1.
Proof.
  induction os as [|o rest IH]; intros app app1 os1 u; simpl.
  - intros H. injection H as _ _ <-. constructor.
  - destruct (process_cli_option_with sv false app o) as [[r a1] o1] eqn:E.
    destruct r as [v|e|m h st]; try discriminate.
    destruct (process_each sv a1 rest) as [[r2 a2] rest'] eqn:E2.
    intros H. injection H as -> _ <-.
    constructor; [exact (process_ok_processed _ _ _ _ E) | exact (IH _ _ _ _ E2)].
Qed.

(** C9.  When no help token is in the mapping and the loop over the options
    has resolved every one of them, batch resolution reports the arguments
    left in the vector, with the help text and exit status 1, if the vector
    is not empty, and returns if it is empty; every option has then been
    processed. *)
Theorem batch_resolution_leftovers
    (sv : Opt -> pyval -> outcome Opt) (app : App) (os : list Opt)
    (app1 : App) (os1 : list Opt) :
  has_help app = false ->
  process_each sv app os = (Ok tt, app1, os1) ->
  let run := process_cli_options_with sv app os in
  Forall (fun o => processed o = true) os1 /\
  (argv app1 <> [] ->
     run = (Exit (Some (MsgUnexpected (argv app1))) true 1, app1, os1) /\
     UnknownOptionError (argv app1) (fst (fst run))) /\
  (argv app1 = [] -> run = (Ok tt, app1, os1)).
Proof.
  intros Hh He run. subst run. unfold process_cli_options_with.
  rewrite Hh, He. split; [exact (process_each_all_processed _ _ _ He)|].
  split.
  - intros Hne. destruct (argv app1) as [|a l] eqn:Ea; [congruence|].
    change (0 <? Z.of_nat (List.length (a :: l))) with true. cbv iota.
    split; [reflexivity|].
    exists 1. split; [reflexivity | lia].
  - intros ->. reflexivity.
Qed.

(** [--unknown=1] against a set without such an option: the token is left
    and batch resolution ends with the unknown-option error. *)
Lemma batch_resolution_leftovers_witness :
  UnknownOptionError ["--unknown=1"]
    (fst (fst (process_cli_options example_builtins example_app_unknown
                 [example_flag]))).
Proof.
  refine (proj2 (proj1 (proj2 (batch_resolution_leftovers
            (set_value example_builtins) example_app_unknown [example_flag]
            (app1 := example_app_unknown)
            (os1 := [with_processed example_flag true]) _ _)) _)).
  - reflexivity.
  - reflexivity.
  - discriminate.
Defined.

(* ================================================================== *)
(** * The list of allowed values *)

Lemma process_unprocessed_present B check app o raw v :
  check && has_help app = false ->
  processed o = false ->
  is_Flag o = false ->
  get (cli_option o) (argv_mappings app) = Some raw ->
  coerce B o raw = Ok v ->
  process_cli_option B check app o =
  match check_required_value (with_value o v) with
  | Ok _ =>
      match _remove_argv_entry app (cli_option o) with
      | (Ok _, app1) => (Ok tt, app1, with_processed (with_value o v) true)
      | (r, app1) => (r, app1, with_value o v)
      end
  | r => (r, app, with_value o v)
  end.
Proof.
  intros Hh Hp Hf Hg Hc. unfold process_cli_option, process_cli_option_with.
  rewrite Hh, Hp, Hf. unfold mem, dict_get_default, set_value.
  rewrite Hg, Hc. reflexivity.
Qed.

(** The counterexample to C2: [--format=xml] for an optional option whose
    allowed values are [json] and [yaml].  The value [set_value] stores is
    not in the list, and resolution returns. *)
Lemma one_of_ignored_when_not_required :
  is_Flag example_format = false /\
  get (cli_option example_format) (argv_mappings example_app_format)
    = Some (PStr "xml") /\
  one_of example_format = Some [PStr "json"; PStr "yaml"] /\
  set_value example_builtins example_format (PStr "xml")
    = Ok (with_value example_format (PStr "xml")) /\
  py_in (PStr "xml") [PStr "json"; PStr "yaml"] = false /\
  process_cli_option example_builtins false example_app_format example_format
    = (Ok tt, mkApp [] [] logging_INFO,
       with_processed (with_value example_format (PStr "xml")) true) /\
  ~ InvalidChoiceError "--format"
      (fst (fst (process_cli_option example_builtins false example_app_format
                   example_format))).
Proof.
  repeat split.
  intros (st & l & H & _). discriminate H.
Qed.

(** C2, amended.  An unprocessed option that is not a flag, whose token is
    in the mapping and whose [set_value] stores [v], with a list [l] of
    allowed values that does not hold [v]: when the option is required,
    [v] is true and [l] is not empty, resolution fails with the
    invalid-choice error and removes nothing; when the option is not
    required, the list is not consulted and resolution never fails with
    that error. *)
Theorem one_of_enforced_when_required
    (B : Builtins) (check : bool) (app : App) (o : Opt) (raw v : pyval)
    (l : list pyval) :
  check && has_help app = false ->
  processed o = false ->
  is_Flag o = false ->
  get (cli_option o) (argv_mappings app) = Some raw ->
  coerce B o raw = Ok v ->
  one_of o = Some l ->
  py_in v l = false ->
  let run := process_cli_option B check app o in
  (required o = true -> truthy v = true -> l <> [] ->
     run = (Exit (Some (MsgRequiresOneOf (cli_option o) l)) true 1, app,
            with_value o v) /\
     InvalidChoiceError (cli_option o) (fst (fst run))) /\
  (required o = false -> ~ InvalidChoiceError (cli_option o) (fst (fst run))).
Proof.
  intros Hh Hp Hf Hg Hc Ho Hin run. subst run.
  rewrite (process_unprocessed_present B check app o Hh Hp Hf Hg Hc).
  unfold check_required_value.
  change (required (with_value o v)) with (required o).
  change (value (with_value o v)) with v.
  change (one_of (with_value o v)) with (one_of o).
  change (cli_option (with_value o v)) with (cli_option o).
  split.
  - intros Hr Ht Hl. rewrite Hr, Ht, Ho. simpl.
    destruct l as [|x l']; [congruence|]. rewrite Hin. simpl.
    split; [reflexivity|].
    exists 1, (x :: l'). split; [reflexivity | lia].
  - intros Hr. rewrite Hr. unfold _remove_argv_entry. rewrite Hg.
    unfold argv_entry.
    intros (st & l' & H & _).
    destruct (truthy raw); [destruct raw|]; simpl in H; discriminate H.
Qed.

(** The required variant of the same option fails on [--format=xml]. *)
Lemma one_of_enforced_when_required_witness :
  InvalidChoiceError "--format"
    (fst (fst (process_cli_option example_builtins false example_app_format
                 example_format_required))).
Proof.
  refine (proj2 (proj1 (one_of_enforced_when_required example_builtins false
            example_app_format example_format_required
            (raw := PStr "xml") (v := PStr "xml")
            (l := [PStr "json"; PStr "yaml"]) _ _ _ _ _ _ _) _ _ _)).
  - reflexivity.
  - reflexivity.
  - reflexivity.
  - reflexivity.
  - reflexivity.
  - reflexivity.
  - reflexivity.
  - reflexivity.
  - reflexivity.
  - discriminate.
Defined.

(* ================================================================== *)
(** * Consuming an option *)

Lemma str_in_In x l : str_in x l = true <-> In x l.
Proof.
  unfold str_in. rewrite existsb_exists. split.
  - intros [y [Hin Heq]]. apply String.eqb_eq in Heq. now subst.
  - intros Hin. exists x. split; [exact Hin | apply String.eqb_refl].
Qed.

Lemma list_remove_In x l : In x l -> exists l', list_remove x l = Some l'.
Proof.
  induction l as [|y l IH]; simpl; [tauto|].
  intros Hin. destruct (String.eqb y x) eqn:E; [eauto|].
  destruct Hin as [->|Hin]; [rewrite String.eqb_refl in E; discriminate|].
  destruct (IH Hin) as [l' ->]. eauto.
Qed.

Lemma list_remove_subset x l l' a :
  list_remove x l = Some l' -> In a l' -> In a l.
Proof.
  revert l'. induction l as [|y l IH]; simpl; intros l'; [discriminate|].
  destruct (String.eqb y x).
  - intros H. injection H as <-. auto.
  - destruct (list_remove x l) as [r|]; [|discriminate].
    intros H. injection H as <-. simpl. intros [->|Hin]; eauto.
Qed.

Lemma list_remove_count x l l' :
  list_remove x l = Some l' ->
  count_occ string_dec l x = S (count_occ string_dec l' x).
Proof.
  revert l'. induction l as [|y l IH]; simpl; intros l'; [discriminate|].
  destruct (String.eqb y x) eqn:E.
  - apply String.eqb_eq in E. subst y. intros H. injection H as <-.
    destruct (string_dec x x); [reflexivity | congruence].
  - apply String.eqb_neq in E.
    destruct (list_remove x l) as [r|]; [|discriminate].
    intros H. injection H as <-. simpl.
    destruct (string_dec y x); [congruence|]. apply IH. reflexivity.
Qed.

(** The counterexample to C5: [--format] is given twice.  The mapping keeps
    the last value; resolution returns and removes the mapping's entry and
    the token [--format=xml], and the token [--format=json] of the same
    option is still in the vector. *)
Lemma repeated_token_stays_in_vector :
  AppBase_init example_builtins example_argv_twice [] logging_INFO
    = (Ok tt, mkApp example_argv_twice [("--format", PStr "xml")] logging_INFO) /\
  mem (cli_option example_format) [("--format", PStr "xml")] = true /\
  process_cli_option example_builtins false
      (mkApp example_argv_twice [("--format", PStr "xml")] logging_INFO)
      example_format
    = (Ok tt, mkApp ["--format=json"] [] logging_INFO,
       with_processed (with_value example_format (PStr "xml")) true) /\
  fst (split_arg "--format=json") = cli_option example_format.
Proof.
  repeat split.
Qed.

(** A resolution that fails removes nothing: [--name] is required and was
    given without a value; resolution leaves with the requires-a-value
    message, and the token is still in the mapping and in the vector. *)
Lemma failed_resolution_consumes_nothing :
  mem (cli_option example_name) (argv_mappings example_app_bare_name) = true /\
  process_cli_option example_builtins false example_app_bare_name example_name
    = (Exit (Some (MsgRequiresValue "--name")) true 1, example_app_bare_name,
       example_name) /\
  MissingValueError "--name"
    (fst (fst (process_cli_option example_builtins false example_app_bare_name
                 example_name))) /\
  mem "--name"
      (argv_mappings
         (snd (fst (process_cli_option example_builtins false
                      example_app_bare_name example_name)))) = true /\
  In "--name"
     (argv (snd (fst (process_cli_option example_builtins false
                        example_app_bare_name example_name)))).
Proof.
  split; [reflexivity|]. split; [reflexivity|]. split.
  - exists 1. split; [reflexivity | lia].
  - split; [reflexivity | simpl; left; reflexivity].
Qed.

(** C5, amended.  An unprocessed option whose token is in the mapping with
    [None] or a non-empty string: when resolution returns, the entry is gone
    from the mapping, and the first occurrence of the originating token
    ([name] or [name=value]) is gone from the vector, nothing else being
    touched; if the vector held no other token of the option, no token of
    the option is left in it. *)
Theorem consumption_removes_from_both
    (sv : Opt -> pyval -> outcome Opt) (check : bool) (app : App) (o : Opt)
    (raw : pyval) (app1 : App) (o1 : Opt) :
  processed o = false ->
  get (cli_option o) (argv_mappings app) = Some raw ->
  (raw = PNone \/ exists s, raw = PStr s /\ s <> EmptyString) ->
  process_cli_option_with sv check app o = (Ok tt, app1, o1) ->
  let entry := originating_token (cli_option o) raw in
  argv_mappings app1 = pop (cli_option o) (argv_mappings app) /\
  mem (cli_option o) (argv_mappings app1) = false /\
  (In entry (argv app) -> list_remove entry (argv app) = Some (argv app1)) /\
  (~ In entry (argv app) -> argv app1 = argv app) /\
  ((forall a, In a (argv app) -> fst (split_arg a) = cli_option o -> a = entry) ->
   (count_occ string_dec (argv app) entry <= 1)%nat ->
   forall a, In a (argv app1) -> fst (split_arg a) <> cli_option o).
Proof.
  intros Hp Hg Hraw Hrun entry.
  assert (Hrem : _remove_argv_entry app (cli_option o) = (Ok tt, app1)).
  { revert Hrun. unfold process_cli_option_with.
    destruct (check && has_help app); [discriminate|].
    rewrite Hp. unfold mem. rewrite Hg.
    destruct (is_Flag o).
    - destruct (_remove_argv_entry app (cli_option o)) as [[[]|e|m h st] a1];
        intros H; try discriminate. injection H as <- _. reflexivity.
    - destruct (sv o _) as [o2|e|m h st]; try discriminate.
      destruct (check_required_value o2) as [v|e|m h st]; try discriminate.
      destruct (_remove_argv_entry app (cli_option o)) as [[[]|e|m h st] a1];
        intros H; try discriminate. injection H as <- _. reflexivity. }
  assert (Hentry : argv_entry (cli_option o) raw = Ok entry).
  { subst entry. destruct Hraw as [-> | (s & -> & Hs)]; [reflexivity|].
    unfold argv_entry. simpl. destruct s; [congruence | reflexivity]. }
  unfold _remove_argv_entry in Hrem. rewrite Hg, Hentry in Hrem.
  injection Hrem as <-. cbn [argv argv_mappings].
  split; [reflexivity|]. split; [apply mem_pop_same|].
  destruct (str_in entry (argv app)) eqn:E.
  - pose proof (proj1 (str_in_In _ _) E) as Hi.
    destruct (list_remove_In _ _ Hi) as [l' El]. rewrite El.
    split; [reflexivity|]. split; [contradiction|].
    intros Honly Hcount a Ha Hsplit.
    pose proof (list_remove_count _ _ El) as Hc.
    pose proof (list_remove_subset _ _ a El Ha) as Ha0.
    rewrite (Honly a Ha0 Hsplit) in Ha.
    apply (count_occ_In string_dec) in Ha. lia.
  - assert (Hni : ~ In entry (argv app)).
    { intros Hi. apply str_in_In in Hi. congruence. }
    split; [contradiction|]. split; [reflexivity|].
    intros Honly _ a Ha Hsplit. apply Hni.
    rewrite <- (Honly a Ha Hsplit). exact Ha.
Qed.

(** [--format=xml] for the optional [--format]: the option is consumed and
    neither the mapping nor the vector mentions it afterwards. *)
Lemma consumption_removes_from_both_witness :
  mem "--format"
      (argv_mappings
         (snd (fst (process_cli_option example_builtins false
                      example_app_format example_format)))) = false /\
  forall a,
    In a (argv (snd (fst (process_cli_option example_builtins false
                            example_app_format example_format)))) ->
    fst (split_arg a) <> "--format".
Proof.
  assert (H := consumption_removes_from_both (set_value example_builtins) false
                 example_app_format example_format (raw := PStr "xml")
                 (app1 := mkApp [] [] logging_INFO)
                 (o1 := with_processed (with_value example_format (PStr "xml")) true)).
  assert (Hp : processed example_format = false) by reflexivity.
  assert (Hg : get (cli_option example_format) (argv_mappings example_app_format)
               = Some (PStr "xml")) by reflexivity.
  assert (Hraw : PStr "xml" = PNone \/ exists s, PStr "xml" = PStr s /\ s <> EmptyString).
  { right. exists "xml". split; [reflexivity | discriminate]. }
  assert (Hrun : process_cli_option_with (set_value example_builtins) false
                   example_app_format example_format =
                 (Ok tt, mkApp [] [] logging_INFO,
                  with_processed (with_value example_format (PStr "xml")) true))
    by (vm_compute; reflexivity).
  destruct (H Hp Hg Hraw Hrun) as (_ & Hm & _ & _ & Hv).
  split; [exact Hm|].
  apply Hv.
  - intros a [<-|[]] _. reflexivity.
  - vm_compute. lia.
Defined.

(* ================================================================== *)
(** * The schema compiler: required properties *)

Lemma schema_to_options_dict d level prefix :
  schema_to_options (PDict d) level prefix =
  match get "properties" d with
  | Some (PDict props) =>
      match compile_properties schema_to_options level prefix props [] with
      | Ok options => mark_required prefix (dict_get_default "required" d) options
      | Raise e => Raise e
      | Exit m h s => Exit m h s
      end
  | Some _ => Raise AttributeError
  | None => leaf_option prefix (PDict d)
  end.
Proof.
  simpl. rewrite lookup_case_get.
  destruct (get "properties" d) as [[]|]; reflexivity.
Qed.

Section MarkRequired.

Variable prefix : option string.

Lemma mark_one_inv options r options' :
  mark_one prefix options r = Ok options' ->
  (py_in r skipped_required = true /\ options' = options) \/
  (py_in r skipped_required = false /\
   exists key o, required_key prefix r = Ok (Some key) /\
                 get key options = Some o /\
                 options' = set key (with_required o true) options).
Proof.
  unfold mark_one. destruct (py_in r skipped_required).
  - intros H. injection H as <-. left. auto.
  - destruct (required_key prefix r) as [[key|]|e|m h st]; try discriminate.
    destruct (get key options) as [o|] eqn:Eg; try discriminate.
    intros H. injection H as <-. right. split; [reflexivity|]. eauto.
Qed.









End MarkRequired.

Lemma eqb_neq_false (a b : string) : a <> b -> String.eqb a b = false.
Proof. apply String.eqb_neq. Qed.


(* ================================================================== *)
(** * Ingestion: what the code does on two inputs *)

(** The first dict-valued item of a JSON object ends the pass: the items
    after it are not looked at. *)
Lemma load_stops_at_first_object k sub rest prefix m :
  load_argv_mappings_from_json (PDict ((k, PDict sub) :: rest)) prefix m =
  load_argv_mappings_from_json (PDict sub)
    (if String.eqb k "metadata" then None else Some (join_prefix prefix k)) m.
Proof. reflexivity. Qed.

(** C3 at a failing input.  [meta.json] holds [display_name], then the
    [metadata] object, then [schema_name].  Loading it maps [--name],
    [--display_name] and [--count]; the top-level key [schema_name], which
    follows the object, is dropped.  In general the keys after the first
    object-valued key of an object have no effect on the mapping. *)
Theorem file_keys_after_object_are_dropped :
  AppBase_init example_builtins ["--file=meta.json"] [] logging_INFO =
    (Ok tt,
     mkApp []
           [("--name", PStr "meta"); ("--display_name", PStr "x");
            ("--count", PInt 3)]
           logging_INFO) /\
  get "schema_name" [("display_name", PStr "x");
                     ("metadata", PDict [("count", PInt 3)]);
                     ("schema_name", PStr "s")] = Some (PStr "s") /\
  mem "--schema_name"
      (argv_mappings
         (snd (AppBase_init example_builtins ["--file=meta.json"] []
                 logging_INFO))) = false /\
  (forall k sub rest rest' prefix m,
     load_argv_mappings_from_json (PDict ((k, PDict sub) :: rest)) prefix m =
     load_argv_mappings_from_json (PDict ((k, PDict sub) :: rest')) prefix m).
Proof.
  split; [reflexivity|]. split; [reflexivity|]. split; [reflexivity|].
  intros. rewrite !load_stops_at_first_object. reflexivity.
Qed.

(** C4 at a failing input.  With [--debug] and [--log-level=INFO] in one
    vector only the token noted last is removed: [--debug] stays in the
    vector.  Of two [--debug] tokens one stays. *)
Theorem debug_token_survives_ingestion (B : Builtins) (shared : dict pyval)
    (level : Z) :
  AppBase_init B ["--debug"; "--log-level=INFO"] shared level =
    (Ok tt, mkApp ["--debug"] shared logging_INFO) /\
  In "--debug"
     (argv (snd (AppBase_init B ["--debug"; "--log-level=INFO"] shared level))) /\
  AppBase_init B ["--debug"; "--debug"] shared level =
    (Ok tt, mkApp ["--debug"] shared logging_DEBUG).
Proof.
  repeat split. simpl. left. reflexivity.
Qed.

(* ================================================================== *)
(** * Tokens: splitting and rebuilding *)

Unset Implicit Arguments.

Lemma split_first_Some c s l r :
  PyStr.split_first c s = Some (l, r) ->
  s = l ++ String c r /\ PyStr.contains_char c l = false.
Proof.
  revert l. induction s as [|a s IH]; simpl; intros l; [discriminate|].
  destruct (Ascii.eqb a c) eqn:E.
  - apply Ascii.eqb_eq in E. subst a. intros H. injection H as <- <-.
    split; reflexivity.
  - destruct (PyStr.split_first c s) as [[l' r']|]; [|discriminate].
    intros H. injection H as <- <-.
    destruct (IH l' eq_refl) as [-> Hc]. simpl. rewrite E, Hc.
    split; reflexivity.
Qed.

Lemma split_first_None c s :
  PyStr.split_first c s = None <-> PyStr.contains_char c s = false.
Proof.
  induction s as [|a s IH]; simpl; [tauto|].
  destruct (Ascii.eqb a c); simpl; [split; discriminate|].
  destruct (PyStr.split_first c s) as [[l r]|].
  - split; [discriminate|]. intros H. apply IH in H. discriminate.
  - split; [intros _; apply IH; reflexivity | reflexivity].
Qed.

Lemma split_first_append c l r :
  PyStr.contains_char c l = false ->
  PyStr.split_first c (l ++ String c r) = Some (l, r).
Proof.
  induction l as [|a l IH]; simpl.
  - intros _. rewrite Ascii.eqb_refl. reflexivity.
  - intros H. apply orb_false_iff in H. destruct H as [Ha Hl].
    rewrite Ha, (IH Hl). reflexivity.
Qed.

Lemma split_arg_without_value arg :
  PyStr.contains_char "=" arg = false -> split_arg arg = (arg, PNone).
Proof.
  intros H. unfold split_arg. apply split_first_None in H. rewrite H.
  reflexivity.
Qed.

Lemma split_arg_with_value tok s :
  PyStr.contains_char "=" tok = false ->
  split_arg (tok ++ "=" ++ s) = (tok, PStr s).
Proof.
  intros H. unfold split_arg.
  change (tok ++ "=" ++ s) with (tok ++ String "=" s).
  rewrite (split_first_append _ _ s H). reflexivity.
Qed.

(** X1.  Splitting a token at its first [=] and rebuilding the entry the
    way [_remove_argv_entry] does gives the token back, for every token
    whose value is not the empty string. *)
Theorem argv_entry_rebuilds_token (arg : string) :
  snd (split_arg arg) <> PStr EmptyString ->
  argv_entry (fst (split_arg arg)) (snd (split_arg arg)) = Ok arg.
Proof.
  unfold split_arg.
  destruct (PyStr.split_first "=" arg) as [[l r]|] eqn:E; simpl.
  - intros Hr. destruct (split_first_Some _ _ _ _ E) as [-> _].
    unfold argv_entry. destruct r; [congruence | reflexivity].
  - intros _. reflexivity.
Qed.

Lemma argv_entry_rebuilds_token_witness :
  argv_entry (fst (split_arg "--format=xml")) (snd (split_arg "--format=xml"))
  = Ok "--format=xml".
Proof.
  apply (argv_entry_rebuilds_token "--format=xml"). discriminate.
Defined.

(* ================================================================== *)
(** * Ingestion of a vector *)

Section IngestionFacts.

Variable B : Builtins.

Lemma walk_arg_plain a w :
  special_token a = false ->
  walk_arg B a w =
  (Ok tt, mkWalk (set (fst (split_arg a)) (snd (split_arg a)) (w_mappings w))
                 (w_level w) (w_log_option w) (w_file_option w)).
Proof.
  unfold special_token, walk_arg. destruct (split_arg a) as [o v]. simpl.
  intros H. apply orb_false_iff in H. destruct H as [H Hf].
  apply orb_false_iff in H. destruct H as [Hd Hl].
  rewrite Hd, Hl, Hf. reflexivity.
Qed.

Lemma walk_argv_plain l : forall w,
  plain_tokens l ->
  walk_argv B l w =
  (Ok tt, mkWalk (map_args l (w_mappings w)) (w_level w) (w_log_option w)
                 (w_file_option w)).
Proof.
  induction l as [|a l IH]; intros w Hp; simpl.
  - destruct w; reflexivity.
  - rewrite (walk_arg_plain a w (Hp a (or_introl eq_refl))).
    rewrite IH; [reflexivity|]. intros b Hb. apply Hp. right. exact Hb.
Qed.

Lemma walk_argv_app l1 l2 : forall w,
  walk_argv B (l1 ++ l2)%list w =
  match walk_argv B l1 w with
  | (Ok _, w') => walk_argv B l2 w'
  | r => r
  end.
Proof.
  induction l1 as [|a l1 IH]; intros w; simpl; [reflexivity|].
  destruct (walk_arg B a w) as [[u|e|m h s] w']; [apply IH | reflexivity..].
Qed.

End IngestionFacts.

Lemma map_args_app l1 l2 m : map_args (l1 ++ l2)%list m = map_args l2 (map_args l1 m).
Proof. apply fold_left_app. Qed.

Lemma map_args_other k l : forall m,
  (forall a, In a l -> fst (split_arg a) <> k) ->
  get k (map_args l m) = get k m.
Proof.
  induction l as [|a l IH]; intros m H; simpl; [reflexivity|].
  rewrite IH by (intros b Hb; apply H; right; exact Hb).
  apply get_set_other. intros E. apply (H a (or_introl eq_refl)). now symmetry.
Qed.

Lemma mem_set_mono (V : Type) k k' (v : V) d :
  mem k d = true -> mem k (set k' v d) = true.
Proof.
  unfold mem. destruct (string_dec k k') as [->|Hne].
  - rewrite get_set_same. reflexivity.
  - rewrite get_set_other by exact Hne. trivial.
Qed.

Lemma mem_set_same (V : Type) k (v : V) d : mem k (set k v d) = true.
Proof. unfold mem. rewrite get_set_same. reflexivity. Qed.

Lemma map_args_mem_mono k l : forall m,
  mem k m = true -> mem k (map_args l m) = true.
Proof.
  induction l as [|a l IH]; intros m H; simpl; [exact H|].
  apply IH. apply mem_set_mono. exact H.
Qed.

Lemma map_args_mem a l : forall m,
  In a l -> mem (fst (split_arg a)) (map_args l m) = true.
Proof.
  induction l as [|b l IH]; intros m; simpl; [tauto|].
  intros [->|Hin]; [|apply IH; exact Hin].
  apply map_args_mem_mono. apply mem_set_same.
Qed.

Lemma list_remove_middle t l1 l2 :
  ~ In t l1 -> list_remove t (l1 ++ t :: l2)%list = Some (l1 ++ l2)%list.
Proof.
  induction l1 as [|a l1 IH]; simpl; intros H.
  - rewrite String.eqb_refl. reflexivity.
  - destruct (String.eqb a t) eqn:E.
    + apply String.eqb_eq in E. exfalso. apply H. left. exact E.
    + rewrite IH; [reflexivity|]. intros Hin. apply H. right. exact Hin.
Qed.

Lemma special_token_not_empty t : special_token t = true -> PyStr.is_empty t = false.
Proof. destruct t; [discriminate | reflexivity]. Qed.

Lemma special_not_in_plain t l :
  special_token t = true -> plain_tokens l -> ~ In t l.
Proof. intros Ht Hp Hin. rewrite (Hp t Hin) in Ht. discriminate. Qed.

(** X2.  A vector without [--debug], [--log-level] and [--file] tokens is
    ingested without error and left as it is; every token's option becomes
    a key of the mapping, the value kept for an option is that of its last
    token, and the keys no token names keep what the shared dict held for
    them before. *)
Theorem plain_ingestion (B : Builtins) (app : App) :
  plain_tokens (argv app) ->
  let m := map_args (argv app) (argv_mappings app) in
  _get_argv_mappings B app = (Ok tt, mkApp (argv app) m (log_level app)) /\
  (forall a, In a (argv app) -> mem (fst (split_arg a)) m = true) /\
  (forall l1 a l2,
     argv app = (l1 ++ a :: l2)%list ->
     (forall b, In b l2 -> fst (split_arg b) <> fst (split_arg a)) ->
     get (fst (split_arg a)) m = Some (snd (split_arg a))) /\
  (forall k,
     (forall a, In a (argv app) -> fst (split_arg a) <> k) ->
     get k m = get k (argv_mappings app)).
Proof.
  intros Hp m. subst m. split; [|split; [|split]].
  - unfold _get_argv_mappings. rewrite walk_argv_plain by exact Hp. reflexivity.
  - intros a Ha. apply map_args_mem. exact Ha.
  - intros l1 a l2 E Hl2. rewrite E, map_args_app. simpl.
    rewrite map_args_other by exact Hl2. apply get_set_same.
  - intros k Hk. apply map_args_other. exact Hk.
Qed.

Lemma plain_ingestion_witness :
  _get_argv_mappings example_builtins
    (mkApp ["--a=1"; "--b"; "--a=2"] [("--stale", PStr "x")] logging_INFO) =
  (Ok tt, mkApp ["--a=1"; "--b"; "--a=2"]
                [("--stale", PStr "x"); ("--a", PStr "2"); ("--b", PNone)]
                logging_INFO).
Proof.
  refine (proj1 (plain_ingestion example_builtins
            (mkApp ["--a=1"; "--b"; "--a=2"] [("--stale", PStr "x")] logging_INFO)
            _)).
  intros a Ha. simpl in Ha.
  destruct Ha as [<-|[<-|[<-|[]]]]; reflexivity.
Defined.

Lemma plain_tokens_app l1 l2 :
  plain_tokens l1 -> plain_tokens l2 -> plain_tokens (l1 ++ l2)%list.
Proof.
  intros H1 H2 a Ha. apply in_app_or in Ha. destruct Ha; auto.
Qed.

(** X3.  A vector with one [--debug] or one [--log-level=LEVEL] token (the
    level being one that [logging] knows) among tokens that are not
    special: the token is removed from the vector, it is not mapped, the
    logger's level is set, and the other tokens are mapped as if the token
    had not been given. *)
Theorem single_log_token_removed
    (B : Builtins) (l1 : list string) (t : string) (l2 : list string)
    (shared : dict pyval) (level lvl : Z) :
  plain_tokens l1 ->
  plain_tokens l2 ->
  (fst (split_arg t) = "--debug" /\ lvl = logging_DEBUG) \/
  (fst (split_arg t) = "--log-level" /\ checkLevel (snd (split_arg t)) = Ok lvl) ->
  AppBase_init B (l1 ++ t :: l2)%list shared level =
  (Ok tt, mkApp (l1 ++ l2)%list (map_args (l1 ++ l2)%list shared) lvl).
Proof.
  intros H1 H2 Ht.
  assert (Hs : special_token t = true).
  { unfold special_token. destruct Ht as [[-> _]|[-> _]]; reflexivity. }
  assert (Hw : walk_arg B t (mkWalk (map_args l1 shared) level None None) =
               (Ok tt, mkWalk (map_args l1 shared) lvl (Some t) None)).
  { unfold walk_arg. destruct (split_arg t) as [o v]. simpl in Ht.
    destruct Ht as [[-> ->]|[-> Hl]]; simpl; [reflexivity|].
    rewrite Hl. reflexivity. }
  unfold AppBase_init, _get_argv_mappings. cbn [argv argv_mappings log_level].
  rewrite walk_argv_app, walk_argv_plain by exact H1.
  cbn [walk_argv w_mappings w_level w_log_option w_file_option].
  rewrite Hw, walk_argv_plain by exact H2.
  cbn [w_mappings w_level w_log_option w_file_option remove_noted].
  rewrite (special_token_not_empty t Hs).
  rewrite list_remove_middle by (apply special_not_in_plain; assumption).
  rewrite map_args_app. reflexivity.
Qed.

Lemma single_log_token_removed_witness :
  AppBase_init example_builtins ["--a=1"; "--log-level=ERROR"; "--b"] []
               logging_INFO =
  (Ok tt, mkApp ["--a=1"; "--b"] [("--a", PStr "1"); ("--b", PNone)] 40).
Proof.
  refine (single_log_token_removed example_builtins ["--a=1"]
            "--log-level=ERROR" ["--b"] [] logging_INFO 40 _ _ _).
  - intros a [<-|[]]. reflexivity.
  - intros a [<-|[]]. reflexivity.
  - right. split; reflexivity.
Defined.

(** X4.  A [--log-level] token whose level [logging] refuses (no value, or
    a name it does not know) ends ingestion with that exception: the
    tokens before it are mapped, those after it are not, and nothing is
    removed from the vector. *)
Theorem bad_log_level_aborts_ingestion
    (B : Builtins) (l1 : list string) (t : string) (l2 : list string)
    (shared : dict pyval) (level : Z) (e : exn) :
  plain_tokens l1 ->
  fst (split_arg t) = "--log-level" ->
  checkLevel (snd (split_arg t)) = Raise e ->
  AppBase_init B (l1 ++ t :: l2)%list shared level =
  (Raise e, mkApp (l1 ++ t :: l2)%list (map_args l1 shared) level).
Proof.
  intros H1 Ht Hl.
  unfold AppBase_init, _get_argv_mappings. cbn [argv argv_mappings log_level].
  rewrite walk_argv_app, walk_argv_plain by exact H1.
  cbn [walk_argv w_mappings w_level w_log_option w_file_option].
  unfold walk_arg. destruct (split_arg t) as [o v]. simpl in Ht, Hl. subst o.
  simpl. rewrite Hl. reflexivity.
Qed.

Lemma bad_log_level_aborts_ingestion_witness :
  AppBase_init example_builtins ["--a=1"; "--log-level"; "--b"] [] logging_INFO =
  (Raise TypeError,
   mkApp ["--a=1"; "--log-level"; "--b"] [("--a", PStr "1")] logging_INFO) /\
  AppBase_init example_builtins ["--log-level=LOUD"] [] logging_INFO =
  (Raise ValueError, mkApp ["--log-level=LOUD"] [] logging_INFO).
Proof.
  split.
  - refine (bad_log_level_aborts_ingestion example_builtins ["--a=1"]
              "--log-level" ["--b"] [] logging_INFO TypeError _ _ _).
    + intros a [<-|[]]. reflexivity.
    + reflexivity.
    + reflexivity.
  - refine (bad_log_level_aborts_ingestion example_builtins []
              "--log-level=LOUD" [] [] logging_INFO ValueError _ _ _).
    + intros a [].
    + reflexivity.
    + reflexivity.
Defined.

(** X5.  A vector with one [--file=PATH] token whose file loads: the token
    is removed from the vector and is not mapped itself; the tokens before
    it are mapped first, then the file's entries, then the tokens after
    it, so that a later source overrides an earlier one. *)
Theorem file_token_removed
    (B : Builtins) (l1 : list string) (t : string) (l2 : list string)
    (shared mf : dict pyval) (level : Z) :
  plain_tokens l1 ->
  plain_tokens l2 ->
  fst (split_arg t) = "--file" ->
  load_argv_mappings_from_file B (snd (split_arg t)) (map_args l1 shared)
    = (Ok tt, mf) ->
  AppBase_init B (l1 ++ t :: l2)%list shared level =
  (Ok tt, mkApp (l1 ++ l2)%list (map_args l2 mf) level).
Proof.
  intros H1 H2 Ht Hload.
  assert (Hs : special_token t = true).
  { unfold special_token. rewrite Ht. reflexivity. }
  unfold AppBase_init, _get_argv_mappings. cbn [argv argv_mappings log_level].
  rewrite walk_argv_app, walk_argv_plain by exact H1.
  cbn [walk_argv w_mappings w_level w_log_option w_file_option].
  assert (Hw : walk_arg B t (mkWalk (map_args l1 shared) level None None) =
               (Ok tt, mkWalk mf level None (Some t))).
  { unfold walk_arg. destruct (split_arg t) as [o v]. simpl in Ht, Hload.
    subst o. simpl. rewrite Hload. reflexivity. }
  rewrite Hw, walk_argv_plain by exact H2.
  cbn [w_mappings w_level w_log_option w_file_option remove_noted].
  rewrite (special_token_not_empty t Hs).
  rewrite list_remove_middle by (apply special_not_in_plain; assumption).
  reflexivity.
Qed.

Lemma file_token_removed_witness :
  AppBase_init example_builtins
    ["--display_name=cli"; "--file=meta.json"; "--count=7"] [] logging_INFO =
  (Ok tt,
   mkApp ["--display_name=cli"; "--count=7"]
         [("--display_name", PStr "x"); ("--name", PStr "meta");
          ("--count", PStr "7")]
         logging_INFO).
Proof.
  refine (file_token_removed example_builtins ["--display_name=cli"]
            "--file=meta.json" ["--count=7"] []
            [("--display_name", PStr "x"); ("--name", PStr "meta");
             ("--count", PInt 3)] logging_INFO _ _ _ _).
  - intros a [<-|[]]. reflexivity.
  - intros a [<-|[]]. reflexivity.
  - reflexivity.
  - reflexivity.
Defined.

(* ================================================================== *)
(** * Induction over values *)

(** Induction on a value, with the hypothesis for every element of a list
    and for every value of a dict. *)
Lemma pyval_nested_ind (P : pyval -> Prop) :
  P PNone ->
  (forall b, P (PBool b)) ->
  (forall z, P (PInt z)) ->
  (forall f, P (PFloat f)) ->
  (forall s, P (PStr s)) ->
  (forall l, Forall P l -> P (PList l)) ->
  (forall d, Forall (fun kv => P (snd kv)) d -> P (PDict d)) ->
  forall v, P v.
Proof.
  intros HN HB HI HF HS HL HD.
  fix IH 1. intros v. destruct v as [|b|z|f|s|l|d].
  - exact HN.
  - apply HB.
  - apply HI.
  - apply HF.
  - apply HS.
  - apply HL. induction l as [|x l IHl]; constructor; [apply IH | exact IHl].
  - apply HD. induction d as [|[k x] d IHd]; constructor; [apply IH | exact IHd].
Qed.

(* ================================================================== *)
(** * Loading a JSON file *)

(** The mapping after the assignments for the items of a flat object. *)
Lemma load_flat_object items : forall prefix m,
  flat_items items ->
  load_argv_mappings_from_json (PDict items) prefix m =
  (Ok tt,
   fold_left (fun acc kv => set (file_token prefix (fst kv)) (snd kv) acc)
             items m).
Proof.
  induction items as [|[k v] items IH]; intros prefix m Hf; [reflexivity|].
  destruct (Hf k v (or_introl eq_refl)) as [Hd Hk].
  assert (Hrest : flat_items items).
  { intros k' v' Hin. apply Hf. right. exact Hin. }
  specialize (IH prefix (set (file_token prefix k) v m) Hrest).
  simpl in IH |- *. rewrite (eqb_neq_false Hk).
  destruct v; try discriminate; exact IH.
Qed.

Lemma file_token_inj prefix k k' :
  file_token prefix k = file_token prefix k' -> k = k'.
Proof.
  unfold file_token, join_prefix. intros H. injection H as H.
  destruct prefix as [p|]; [|exact H].
  destruct (PyStr.is_empty p); [exact H|].
  induction p as [|a p IHp]; simpl in H.
  - injection H as H. exact H.
  - injection H as H. apply IHp. exact H.
Qed.

Lemma fold_set_get_other (V : Type) (f : string -> string) key (l : list (string * V)) :
  forall m,
  (forall k v, In (k, v) l -> f k <> key) ->
  get key (fold_left (fun acc kv => set (f (fst kv)) (snd kv) acc) l m)
  = get key m.
Proof.
  induction l as [|[k v] l IH]; intros m H; simpl; [reflexivity|].
  rewrite IH by (intros k' v' Hin; apply (H k' v'); right; exact Hin).
  apply get_set_other. intros E. apply (H k v (or_introl eq_refl)). now symmetry.
Qed.

Lemma fold_set_get (V : Type) (f : string -> string) (l : list (string * V)) :
  (forall a b, f a = f b -> a = b) ->
  NoDup (map fst l) ->
  forall m k v, In (k, v) l ->
  get (f k) (fold_left (fun acc kv => set (f (fst kv)) (snd kv) acc) l m)
  = Some v.
Proof.
  intros Hinj. induction l as [|[k0 v0] l IH]; intros Hnd m k v Hin;
    [destruct Hin|].
  simpl in Hnd. inversion Hnd as [|? ? Hnot Hnd']; subst. simpl.
  destruct Hin as [E|Hin].
  - injection E as -> ->.
    rewrite fold_set_get_other; [apply get_set_same|].
    intros k' v' Hin' E'. apply Hinj in E'. subst k'.
    apply Hnot. apply (in_map fst) in Hin'. exact Hin'.
  - apply IH; assumption.
Qed.

(** X6.  Loading a JSON object that has no object-valued item and no
    [metadata] key returns, and maps every key [k] of the object under
    [--k] (under [--prefix.k] below a prefix) with the key's value: no key
    is dropped. *)
Theorem flat_object_is_mapped
    (items : list (string * pyval)) (prefix : option string) (m m' : dict pyval) :
  flat_items items ->
  NoDup (map fst items) ->
  snd (load_argv_mappings_from_json (PDict items) prefix m) = m' ->
  fst (load_argv_mappings_from_json (PDict items) prefix m) = Ok tt /\
  (forall k v, In (k, v) items -> get (file_token prefix k) m' = Some v) /\
  (forall key, (forall k v, In (k, v) items -> file_token prefix k <> key) ->
               get key m' = get key m).
Proof.
  intros Hf Hnd <-. rewrite load_flat_object by exact Hf. simpl.
  split; [reflexivity|]. split.
  - intros k v Hin. apply fold_set_get; [apply file_token_inj | exact Hnd | exact Hin].
  - intros key Hk. apply fold_set_get_other. exact Hk.
Qed.

Lemma flat_object_is_mapped_witness :
  get "--runtime.port"
      (snd (load_argv_mappings_from_json
              (PDict [("host", PStr "h"); ("port", PInt 80)]) (Some "runtime") []))
  = Some (PInt 80).
Proof.
  refine (proj1 (proj2 (flat_object_is_mapped
            [("host", PStr "h"); ("port", PInt 80)] (Some "runtime") [] _
            _ _ eq_refl)) "port" (PInt 80) _).
  - intros k v [E|[E|[]]]; injection E as <- <-; split;
      [reflexivity | discriminate | reflexivity | discriminate].
  - repeat constructor; simpl; intuition discriminate.
  - simpl. right. left. reflexivity.
Defined.

Lemma load_after_flat_items before : forall k sub rest prefix m,
  flat_items before ->
  load_argv_mappings_from_json
    (PDict (before ++ (k, PDict sub) :: rest)%list) prefix m =
  load_argv_mappings_from_json (PDict sub)
    (if String.eqb k "metadata" then None else Some (join_prefix prefix k))
    (fold_left (fun acc kv => set (file_token prefix (fst kv)) (snd kv) acc)
               before m).
Proof.
  induction before as [|[k0 v0] before IH]; intros k sub rest prefix m Hf;
    [reflexivity|].
  destruct (Hf k0 v0 (or_introl eq_refl)) as [Hd Hk].
  assert (Hrest : flat_items before).
  { intros k' v' Hin. apply Hf. right. exact Hin. }
  specialize (IH k sub rest prefix (set (file_token prefix k0) v0 m) Hrest).
  simpl in IH |- *. rewrite (eqb_neq_false Hk).
  destruct v0; try discriminate; exact IH.
Qed.

(** X7.  A JSON object whose last item is an object, the items before it
    and the items of that object being flat: loading returns; every key of
    the nested object is mapped under [--parent.key], and under [--key]
    alone when the parent is [metadata]; every key before it is mapped
    under [--key] unless the nested object maps the same token. *)
Theorem nested_object_is_flattened
    (before : list (string * pyval)) (parent : string)
    (sub : list (string * pyval)) (m m' : dict pyval) :
  flat_items before -> NoDup (map fst before) ->
  flat_items sub -> NoDup (map fst sub) ->
  let inner := if String.eqb parent "metadata" then None else Some parent in
  snd (load_argv_mappings_from_json
         (PDict (before ++ [(parent, PDict sub)])%list) None m) = m' ->
  fst (load_argv_mappings_from_json
         (PDict (before ++ [(parent, PDict sub)])%list) None m) = Ok tt /\
  (forall k v, In (k, v) sub -> get (file_token inner k) m' = Some v) /\
  (forall k v, In (k, v) before ->
     (forall k' v', In (k', v') sub -> file_token inner k' <> file_token None k) ->
     get (file_token None k) m' = Some v).
Proof.
  intros Hfb Hnb Hfs Hns inner <-.
  rewrite load_after_flat_items by exact Hfb.
  change (if String.eqb parent "metadata" then None
          else Some (join_prefix None parent)) with inner.
  rewrite load_flat_object by exact Hfs. simpl.
  split; [reflexivity|]. split.
  - intros k v Hin. apply fold_set_get; [apply file_token_inj | exact Hns | exact Hin].
  - intros k v Hin Hfree. rewrite fold_set_get_other by exact Hfree.
    apply fold_set_get; [apply file_token_inj | exact Hnb | exact Hin].
Qed.

Lemma nested_object_is_flattened_witness :
  get "--count"
      (snd (load_argv_mappings_from_json
              (PDict [("display_name", PStr "x");
                      ("metadata", PDict [("count", PInt 3)])]) None []))
  = Some (PInt 3).
Proof.
  refine (proj1 (proj2 (nested_object_is_flattened
            [("display_name", PStr "x")] "metadata" [("count", PInt 3)] [] _
            _ _ _ _ eq_refl)) "count" (PInt 3) _).
  - intros k v [E|[]]; injection E as <- <-; split; [reflexivity | discriminate].
  - repeat constructor; simpl; intuition.
  - intros k v [E|[]]; injection E as <- <-; split; [reflexivity | discriminate].
  - repeat constructor; simpl; intuition.
  - simpl. left. reflexivity.
Defined.

(** X8.  Payloads the loader refuses.  A file whose JSON is not an object
    raises [AttributeError], after [--name] has been mapped from the file's
    name; an object whose [metadata] item is not an object raises
    [TypeError], the flat items before it being mapped. *)
Theorem malformed_payload_raises :
  (forall (B : Builtins) (f : string) (j : pyval) (m : dict pyval),
     json_load_file B (PStr f) = Ok j ->
     is_dict j = false ->
     load_argv_mappings_from_file B (PStr f) m =
     (Raise AttributeError,
      set "--name" (PStr (PyStr.before_first "." (PyStr.basename f))) m)) /\
  (forall (before : list (string * pyval)) (v : pyval)
          (rest : list (string * pyval)) (prefix : option string)
          (m : dict pyval),
     flat_items before ->
     is_dict v = false ->
     load_argv_mappings_from_json
       (PDict (before ++ ("metadata", v) :: rest)%list) prefix m =
     (Raise TypeError,
      fold_left (fun acc kv => set (file_token prefix (fst kv)) (snd kv) acc)
                before m)).
Proof.
  split.
  - intros B f j m Hj Hd. unfold load_argv_mappings_from_file. rewrite Hj.
    destruct j; try discriminate; reflexivity.
  - intros before. induction before as [|[k0 v0] before IH];
      intros v rest prefix m Hf Hd.
    + simpl. destruct v; try discriminate; reflexivity.
    + destruct (Hf k0 v0 (or_introl eq_refl)) as [Hd0 Hk].
      assert (Hrest : flat_items before).
      { intros k' v' Hin. apply Hf. right. exact Hin. }
      specialize (IH v rest prefix (set (file_token prefix k0) v0 m) Hrest Hd).
      simpl in IH |- *. rewrite (eqb_neq_false Hk).
      destruct v0; try discriminate; exact IH.
Qed.

Lemma malformed_payload_raises_witness :
  load_argv_mappings_from_json
    (PDict [("display_name", PStr "x"); ("metadata", PInt 3)]) None [] =
  (Raise TypeError, [("--display_name", PStr "x")]).
Proof.
  refine (proj2 malformed_payload_raises [("display_name", PStr "x")] (PInt 3)
            [] None [] _ _).
  - intros k v [E|[]]; injection E as <- <-; split; [reflexivity | discriminate].
  - reflexivity.
Defined.

(* ================================================================== *)
(** * The mapping only grows during ingestion *)

Lemma load_json_mem_mono key : forall j prefix m,
  mem key m = true ->
  mem key (snd (load_argv_mappings_from_json j prefix m)) = true.
Proof.
  intros j. induction j as [| | | | | l _ | d IH] using pyval_nested_ind;
    intros prefix m Hm; try exact Hm.
  revert m Hm. induction d as [|[k v] d IHd]; intros m Hm; [exact Hm|].
  inversion IH as [|? ? Hv Hd]; subst. specialize (IHd Hd).
  simpl in Hv, IHd |- *.
  destruct (String.eqb k "metadata").
  - destruct v; try exact Hm. apply Hv. exact Hm.
  - destruct v; try (apply IHd; apply mem_set_mono; exact Hm).
    apply Hv. exact Hm.
Qed.

Section MappingGrows.

Variable B : Builtins.

Lemma load_file_mem_mono key filename m :
  mem key m = true ->
  mem key (snd (load_argv_mappings_from_file B filename m)) = true.
Proof.
  intros Hm. unfold load_argv_mappings_from_file.
  destruct (json_load_file B filename) as [j|e|msg h s]; try exact Hm.
  destruct filename; try exact Hm.
  apply load_json_mem_mono. apply mem_set_mono. exact Hm.
Qed.

Lemma walk_arg_mem_mono key a w :
  mem key (w_mappings w) = true ->
  mem key (w_mappings (snd (walk_arg B a w))) = true.
Proof.
  intros Hm. unfold walk_arg. destruct (split_arg a) as [o v].
  destruct (String.eqb o "--debug"); [exact Hm|].
  destruct (String.eqb o "--log-level").
  { destruct (checkLevel v); exact Hm. }
  destruct (String.eqb o "--file").
  - pose proof (load_file_mem_mono key v (w_mappings w) Hm) as H.
    destruct (load_argv_mappings_from_file B v (w_mappings w)). exact H.
  - simpl. apply mem_set_mono. exact Hm.
Qed.

Lemma walk_argv_mem key l : forall w w',
  walk_argv B l w = (Ok tt, w') ->
  mem key (w_mappings w) = true \/
  (exists a, In a l /\ special_token a = false /\ fst (split_arg a) = key) ->
  mem key (w_mappings w') = true.
Proof.
  induction l as [|a l IH]; intros w w'; simpl.
  - intros E [Hm|(a & [] & _)]. injection E as <-. exact Hm.
  - destruct (walk_arg B a w) as [r w1] eqn:Ea.
    destruct r as [u|e|m h s]; try discriminate.
    intros E H. apply (IH w1 w' E).
    destruct H as [Hm|(b & [->|Hin] & Hs & Hk)].
    + left. pose proof (walk_arg_mem_mono key a w Hm) as Hmono.
      rewrite Ea in Hmono. exact Hmono.
    + left. rewrite (walk_arg_plain B b w Hs) in Ea. injection Ea as _ <-.
      simpl. rewrite Hk. apply mem_set_same.
    + right. exists b. auto.
Qed.

Lemma get_argv_mappings_ok app app' :
  _get_argv_mappings B app = (Ok tt, app') ->
  exists w, walk_argv B (argv app)
              (mkWalk (argv_mappings app) (log_level app) None None) = (Ok tt, w)
            /\ argv_mappings app' = w_mappings w.
Proof.
  unfold _get_argv_mappings.
  destruct (walk_argv B (argv app) _) as [[[]|e|m h s] w]; try discriminate.
  destruct (remove_noted (w_log_option w) (argv app)) as [l1|e|m h s];
    try discriminate.
  destruct (remove_noted (w_file_option w) l1) as [l2|e|m h s];
    try discriminate.
  intros E. injection E as <-. exists w. split; reflexivity.
Qed.

End MappingGrows.

Lemma help_token_not_special a : help_token a -> special_token a = false.
Proof. unfold special_token. intros [-> | ->]; reflexivity. Qed.

(** X9.  If the vector holds a [--help] or [-h] token, with or without a
    value and at any position, and ingestion returns, then batch
    resolution leaves at once with the help text and status 1: no option
    is resolved and nothing is consumed. *)
Theorem help_token_stops_batch
    (B : Builtins) (args : list string) (shared : dict pyval) (level : Z)
    (app : App) (a : string) :
  AppBase_init B args shared level = (Ok tt, app) ->
  In a args ->
  help_token a ->
  has_help app = true /\
  forall (sv : Opt -> pyval -> outcome Opt) (os : list Opt),
    process_cli_options_with sv app os = (Exit None true 1, app, os).
Proof.
  intros Hinit Hin Hhelp.
  destruct (get_argv_mappings_ok B _ _ Hinit) as (w & Hw & Hm). simpl in Hw.
  assert (Hh : has_help app = true).
  { unfold has_help. rewrite Hm. destruct Hhelp as [Hk|Hk].
    - rewrite (walk_argv_mem B "--help" args _ w Hw); [reflexivity|].
      right. exists a. split; [exact Hin|].
      split; [apply help_token_not_special; left; exact Hk | exact Hk].
    - rewrite (walk_argv_mem B "-h" args _ w Hw); [apply orb_true_r|].
      right. exists a. split; [exact Hin|].
      split; [apply help_token_not_special; right; exact Hk | exact Hk]. }
  split; [exact Hh|].
  intros sv os. unfold process_cli_options_with. rewrite Hh. reflexivity.
Qed.

Lemma help_token_stops_batch_witness :
  process_cli_options example_builtins
    (mkApp ["--format=xml"; "-h"] [("--format", PStr "xml"); ("-h", PNone)]
           logging_INFO)
    [example_format] =
  (Exit None true 1,
   mkApp ["--format=xml"; "-h"] [("--format", PStr "xml"); ("-h", PNone)]
         logging_INFO,
   [example_format]).
Proof.
  refine (proj2 (help_token_stops_batch example_builtins ["--format=xml"; "-h"]
            [] logging_INFO _ "-h" _ _ _) (set_value example_builtins)
            [example_format]).
  - reflexivity.
  - simpl. right. left. reflexivity.
  - right. reflexivity.
Defined.

(* ================================================================== *)
(** * The schema compiler: what holds of every option it emits *)

Lemma get_In (V : Type) k (v : V) d : get k d = Some v -> In (k, v) d.
Proof.
  induction d as [|[k' v'] d IH]; simpl; [discriminate|].
  destruct (String.eqb k' k) eqn:E.
  - apply String.eqb_eq in E. subst k'. intros H. injection H as ->. left.
    reflexivity.
  - intros H. right. apply IH. exact H.
Qed.

Lemma In_set (V : Type) k (v : V) d k' v' :
  In (k', v') (set k v d) -> (k' = k /\ v' = v) \/ In (k', v') d.
Proof.
  induction d as [|[k0 v0] d IH]; simpl.
  - intros [E|[]]. injection E as <- <-. left. split; reflexivity.
  - destruct (String.eqb k0 k) eqn:E; simpl.
    + apply String.eqb_eq in E. subst k0.
      intros [E'|Hin]; [injection E' as <- <-; left; split; reflexivity|].
      right. right. exact Hin.
    + intros [E'|Hin]; [right; left; exact E'|].
      destruct (IH Hin) as [H|H]; [left; exact H | right; right; exact H].
Qed.

Lemma In_update (V : Type) (b : dict V) : forall a k v,
  In (k, v) (update a b) -> In (k, v) a \/ In (k, v) b.
Proof.
  unfold update. induction b as [|[k0 v0] b IH]; intros a k v; simpl.
  - intros H. left. exact H.
  - intros H. destruct (IH _ _ _ H) as [Ha|Hb]; [|right; right; exact Hb].
    destruct (In_set _ _ _ _ _ _ Ha) as [[-> ->]|Ha'];
      [right; left; reflexivity | left; exact Ha'].
Qed.

Lemma mem_update_left (V : Type) key (b : dict V) : forall a,
  mem key a = true -> mem key (update a b) = true.
Proof.
  unfold update. induction b as [|[k0 v0] b IH]; intros a H; simpl;
    [exact H|].
  apply IH. apply mem_set_mono. exact H.
Qed.

Lemma mem_update_right (V : Type) key (b : dict V) : forall a,
  mem key b = true -> mem key (update a b) = true.
Proof.
  unfold update. induction b as [|[k0 v0] b IH]; intros a; simpl;
    [discriminate|].
  unfold mem at 1. simpl. destruct (String.eqb k0 key) eqn:E.
  - intros _. apply String.eqb_eq in E. subst k0.
    apply (mem_update_left V key b). apply mem_set_same.
  - intros H. apply IH. exact H.
Qed.

Section SchemaInvariant.

(** The calls for which the property is claimed, and the property of an
    option under its key. *)
Variable Good : Z -> option string -> Prop.
Variable Q : string -> Opt -> Prop.

Hypothesis Good_step : forall level prefix k,
  Good level prefix -> k <> "schema_name" ->
  Good (level + 1) (Some (prefixed prefix k)).

Hypothesis Q_leaf : forall level prefix k v o,
  Good level prefix -> k <> "schema_name" ->
  (if level =? 0 then SchemaProperty (Some (prefixed prefix k)) v
   else MetadataSchemaProperty (Some (prefixed prefix k)) v) = Ok o ->
  Q (prefixed prefix k) o.

Hypothesis Q_object : forall level p schema o,
  Good level (Some p) -> MetadataSchemaProperty (Some p) schema = Ok o -> Q p o.

Hypothesis Q_mark : forall k o, Q k o -> Q k (with_required o true).

Local Abbreviation holds opts := (forall k o, In (k, o) opts -> Q k o).

Local Abbreviation compiles_well rec v :=
  (forall level prefix opts,
     Good level prefix -> rec v level prefix = Ok opts -> holds opts).

Lemma leaf_option_holds level prefix schema opts :
  Good level prefix -> leaf_option prefix schema = Ok opts -> holds opts.
Proof.
  intros Hg. unfold leaf_option.
  destruct (MetadataSchemaProperty prefix schema) as [o|e|m h s] eqn:E;
    try discriminate.
  destruct prefix as [p|]; [|discriminate].
  intros H. injection H as <-. intros k o' [Hin|[]]. injection Hin as <- <-.
  exact (Q_object level p schema o Hg E).
Qed.

Lemma compile_property_holds rec level prefix options k v options' :
  Good level prefix ->
  compiles_well rec v ->
  holds options ->
  compile_property rec level prefix options k v = Ok options' ->
  holds options'.
Proof.
  intros Hg Hrec Hopt. unfold compile_property.
  destruct (String.eqb k "schema_name") eqn:Ek.
  { intros H. injection H as <-. exact Hopt. }
  apply String.eqb_neq in Ek.
  destruct (subscript_type v) as [t|e|m h s]; try discriminate.
  destruct (py_eq t (PStr "object")).
  - destruct (rec v (level + 1) (Some (prefixed prefix k))) as [sub|e|m h s] eqn:Er;
      try discriminate.
    intros H. injection H as <-. intros k' o' Hin.
    destruct (In_update _ _ _ _ _ Hin) as [Ha|Hb]; [exact (Hopt _ _ Ha)|].
    exact (Hrec _ _ _ (Good_step _ _ _ Hg Ek) Er _ _ Hb).
  - destruct (if level =? 0 then SchemaProperty (Some (prefixed prefix k)) v
              else MetadataSchemaProperty (Some (prefixed prefix k)) v)
      as [o|e|m h s] eqn:Eo; try discriminate.
    intros H. injection H as <-. intros k' o' Hin.
    destruct (In_set _ _ _ _ _ _ Hin) as [[-> ->]|Hin']; [|exact (Hopt _ _ Hin')].
    exact (Q_leaf _ _ _ _ _ Hg Ek Eo).
Qed.

Lemma compile_properties_holds rec level prefix items :
  Good level prefix ->
  Forall (fun kv => compiles_well rec (snd kv)) items ->
  forall options options',
    holds options ->
    compile_properties rec level prefix items options = Ok options' ->
    holds options'.
Proof.
  intros Hg Hall. induction Hall as [|[k v] items Hv _ IH];
    intros options options' Hopt; simpl.
  - intros H. injection H as <-. exact Hopt.
  - destruct (compile_property rec level prefix options k v) as [o1|e|m h s] eqn:E;
      try discriminate.
    apply IH. exact (compile_property_holds _ _ _ _ _ _ _ Hg Hv Hopt E).
Qed.

Lemma mark_all_holds prefix reqs : forall options options',
  holds options ->
  mark_all prefix reqs options = Ok options' ->
  holds options'.
Proof.
  induction reqs as [|r reqs IH]; intros options options' Hopt; simpl.
  - intros H. injection H as <-. exact Hopt.
  - destruct (mark_one prefix options r) as [o1|e|m h s] eqn:E; try discriminate.
    apply IH.
    destruct (@mark_one_inv prefix options r o1 E)
      as [[_ ->] | [_ (key & o & _ & Hg & ->)]]; [exact Hopt|].
    intros k' o' Hin.
    destruct (In_set _ _ _ _ _ _ Hin) as [[-> ->]|Hin']; [|exact (Hopt _ _ Hin')].
    apply Q_mark. apply Hopt. apply get_In. exact Hg.
Qed.

Lemma mark_required_holds prefix required_props options options' :
  holds options ->
  mark_required prefix required_props options = Ok options' ->
  holds options'.
Proof.
  intros Hopt. unfold mark_required.
  destruct (truthy required_props).
  - destruct (py_iter required_props) as [reqs|e|m h s]; try discriminate.
    apply mark_all_holds. exact Hopt.
  - intros H. injection H as <-. exact Hopt.
Qed.

Lemma schema_to_options_holds_all (schema : pyval) :
  compiles_well schema_to_options schema /\
  (forall items, schema = PDict items ->
     Forall (fun kv => compiles_well schema_to_options (snd kv)) items).
Proof.
  induction schema as [| | | | s | l _ | d IH] using pyval_nested_ind;
    (split; [|intros items E; try discriminate E]);
    try (intros level prefix opts _ H; discriminate H).
  - intros level prefix opts Hg. simpl.
    destruct (PyStr.contains "properties" s); [discriminate|].
    apply leaf_option_holds with (level := level). exact Hg.
  - intros level prefix opts Hg. simpl.
    destruct (py_in (PStr "properties") l); [discriminate|].
    apply leaf_option_holds with (level := level). exact Hg.
  - intros level prefix opts Hg. rewrite schema_to_options_dict.
    destruct (get "properties" d) as [properties|] eqn:Ep.
    + destruct properties as [| | | | | |props]; try discriminate.
      assert (Hprops : Forall (fun kv => compiles_well schema_to_options (snd kv))
                              props).
      { apply get_In in Ep. rewrite Forall_forall in IH.
        exact (proj2 (IH _ Ep) props eq_refl). }
      destruct (compile_properties schema_to_options level prefix props [])
        as [options|e|m h s] eqn:Ec; try discriminate.
      apply mark_required_holds.
      apply (compile_properties_holds _ _ _ _ Hg Hprops [] options);
        [intros k o [] | exact Ec].
    + apply leaf_option_holds with (level := level). exact Hg.
  - injection E as <-. apply Forall_impl with (2 := IH).
    intros kv [H _]. exact H.
Qed.

Lemma schema_to_options_holds schema level prefix opts k o :
  Good level prefix ->
  schema_to_options schema level prefix = Ok opts ->
  In (k, o) opts ->
  Q k o.
Proof.
  intros Hg Hrun Hin.
  exact (proj1 (schema_to_options_holds_all schema) level prefix opts Hg Hrun k o Hin).
Qed.

End SchemaInvariant.

Lemma SchemaProperty_init_keyed c n v o :
  SchemaProperty_init c (Some n) v = Ok o -> keyed_as n o /\ cls o = c.
Proof.
  unfold SchemaProperty_init. destruct v; try discriminate.
  intros H. injection H as <-. repeat split.
Qed.

(** X10.  Every option of a compiled option set sits under its own name:
    for the option under the key [k], [name] is [k], the token is [--k],
    the value is the default, and the option is unprocessed and has no
    list of allowed values. *)
Theorem compiled_options_are_keyed
    (schema : pyval) (level : Z) (prefix : option string) (opts : dict Opt)
    (k : string) (o : Opt) :
  schema_to_options schema level prefix = Ok opts ->
  get k opts = Some o ->
  keyed_as k o.
Proof.
  intros Hrun Hget.
  refine (schema_to_options_holds (fun _ _ => True) keyed_as _ _ _ _
            schema level prefix opts k o I Hrun (get_In _ _ _ _ Hget)).
  - intros lvl p k0 _ _. exact I.
  - intros lvl p k0 v o0 _ _ H. destruct (lvl =? 0);
      exact (proj1 (SchemaProperty_init_keyed _ _ _ _ H)).
  - intros _ p sch o0 _ H. exact (proj1 (SchemaProperty_init_keyed _ _ _ _ H)).
  - intros k0 o0 H. exact H.
Qed.

Lemma compiled_options_are_keyed_witness :
  keyed_as "count" example_compiled_count.
Proof.
  refine (compiled_options_are_keyed example_flat_schema 0 None
            example_flat_options "count" example_compiled_count _ _).
  - vm_compute. reflexivity.
  - reflexivity.
Defined.

(** X11.  Below the top level the compiler emits only
    [MetadataSchemaProperty] instances: every option of a set compiled at a
    level above 0 has that class. *)
Theorem nested_options_are_metadata
    (schema : pyval) (level : Z) (prefix : option string) (opts : dict Opt)
    (k : string) (o : Opt) :
  0 < level ->
  schema_to_options schema level prefix = Ok opts ->
  get k opts = Some o ->
  cls o = ClsMetadataSchemaProperty.
Proof.
  intros Hl Hrun Hget.
  refine (schema_to_options_holds (fun lvl _ => 0 < lvl)
            (fun _ o => cls o = ClsMetadataSchemaProperty) _ _ _ _
            schema level prefix opts k o Hl Hrun (get_In _ _ _ _ Hget)).
  - intros lvl p k0 H _. lia.
  - intros lvl p k0 v o0 H _ E.
    replace (lvl =? 0) with false in E by (symmetry; apply Z.eqb_neq; lia).
    exact (proj2 (SchemaProperty_init_keyed _ _ _ _ E)).
  - intros lvl p sch o0 _ E. exact (proj2 (SchemaProperty_init_keyed _ _ _ _ E)).
  - intros k0 o0 H. exact H.
Qed.

Lemma nested_options_are_metadata_witness :
  cls example_compiled_count = ClsMetadataSchemaProperty.
Proof.
  refine (nested_options_are_metadata
            (PDict [("type", PStr "object");
                    ("properties",
                     PDict [("count", PDict [("type", PStr "number")])])])
            1 (Some "metadata") [("count", example_compiled_count)] "count"
            example_compiled_count _ _ _).
  - lia.
  - vm_compute. reflexivity.
  - reflexivity.
Defined.

Lemma contains_char_append c p k :
  PyStr.contains_char c (p ++ String c k) = true.
Proof.
  induction p as [|a p IH]; simpl.
  - rewrite Ascii.eqb_refl. reflexivity.
  - rewrite IH. apply orb_true_r.
Qed.

Lemma prefixed_not_schema_name prefix k :
  prefix <> Some "schema_name" -> k <> "schema_name" ->
  prefixed prefix k <> "schema_name".
Proof.
  intros Hp Hk. unfold prefixed.
  destruct (prefix_applies prefix) as [p|]; [|exact Hk].
  intros E. pose proof (contains_char_append "." p k) as Hc.
  change (p ++ String "." k) with (p ++ "." ++ k) in Hc.
  rewrite E in Hc. discriminate Hc.
Qed.

(** X12.  [schema_name] is never turned into an option: unless the
    compiler is started under the prefix [schema_name] itself, no compiled
    option set has an option under the key [schema_name]. *)
Theorem schema_name_is_never_an_option
    (schema : pyval) (level : Z) (prefix : option string) (opts : dict Opt) :
  prefix <> Some "schema_name" ->
  schema_to_options schema level prefix = Ok opts ->
  get "schema_name" opts = None.
Proof.
  intros Hp Hrun. destruct (get "schema_name" opts) as [o|] eqn:Hget;
    [|reflexivity].
  exfalso.
  refine (schema_to_options_holds (fun _ p => p <> Some "schema_name")
            (fun k _ => k <> "schema_name") _ _ _ _
            schema level prefix opts "schema_name" o Hp Hrun
            (get_In _ _ _ _ Hget) eq_refl).
  - intros lvl p k0 H Hk E. injection E as E.
    exact (prefixed_not_schema_name p k0 H Hk E).
  - intros lvl p k0 v o0 H Hk _. exact (prefixed_not_schema_name p k0 H Hk).
  - intros lvl p sch o0 H _ E. apply H. rewrite E. reflexivity.
  - intros k0 o0 H. exact H.
Qed.

Lemma schema_name_is_never_an_option_witness :
  get "schema_name" example_flat_options = None.
Proof.
  refine (schema_name_is_never_an_option example_flat_schema 0 None
            example_flat_options _ _).
  - discriminate.
  - vm_compute. reflexivity.
Defined.

(** X13.  Schemas the compiler refuses.  A schema that is not a dict
    raises; a dict without ['properties'] raises [TypeError] when no prefix
    is given; ['properties'] that is not a dict raises [AttributeError]; a
    first property without ['type'] raises [KeyError]. *)
Theorem malformed_schema_raises :
  (forall schema level prefix,
     is_dict schema = false ->
     exists e, schema_to_options schema level prefix = Raise e) /\
  (forall d level,
     get "properties" d = None ->
     schema_to_options (PDict d) level None = Raise TypeError) /\
  (forall d level prefix v,
     get "properties" d = Some v ->
     is_dict v = false ->
     schema_to_options (PDict d) level prefix = Raise AttributeError) /\
  (forall d level prefix k pd rest,
     get "properties" d = Some (PDict ((k, PDict pd) :: rest)) ->
     k <> "schema_name" ->
     get "type" pd = None ->
     schema_to_options (PDict d) level prefix = Raise KeyError).
Proof.
  split; [|split; [|split]].
  - intros schema level prefix Hd.
    assert (Hleaf : exists e, leaf_option prefix schema = Raise e).
    { unfold leaf_option, MetadataSchemaProperty, SchemaProperty_init.
      destruct prefix; [|eauto]. destruct schema; try discriminate; eauto. }
    destruct schema; try discriminate; simpl; eauto.
    + destruct (PyStr.contains "properties" s); eauto.
    + destruct (py_in (PStr "properties") l); eauto.
  - intros d level Hp. rewrite schema_to_options_dict, Hp. reflexivity.
  - intros d level prefix v Hp Hd. rewrite schema_to_options_dict, Hp.
    destruct v; try discriminate; reflexivity.
  - intros d level prefix k pd rest Hp Hk Ht.
    rewrite schema_to_options_dict, Hp. simpl. unfold compile_property.
    rewrite (eqb_neq_false Hk). simpl. rewrite Ht. reflexivity.
Qed.

Lemma malformed_schema_raises_witness :
  schema_to_options (PDict [("title", PStr "no properties here")]) 0 None
  = Raise TypeError.
Proof.
  refine (proj1 (proj2 malformed_schema_raises)
            [("title", PStr "no properties here")] 0 _).
  reflexivity.
Defined.

(* ================================================================== *)
(** * The schema compiler: nothing emitted is lost *)

Section CompileKeeps.

Variable rec : pyval -> Z -> option string -> outcome (dict Opt).
Variables (level : Z) (prefix : option string).

Lemma compile_property_mem_mono key options k v options' :
  compile_property rec level prefix options k v = Ok options' ->
  mem key options = true -> mem key options' = true.
Proof.
  unfold compile_property.
  destruct (String.eqb k "schema_name").
  { intros H. injection H as <-. trivial. }
  destruct (subscript_type v) as [t|e|m h s]; try discriminate.
  destruct (py_eq t (PStr "object")).
  - destruct (rec v (level + 1) (Some (prefixed prefix k))) as [sub|e|m h s];
      try discriminate.
    intros H. injection H as <-. apply mem_update_left.
  - destruct (if level =? 0 then SchemaProperty (Some (prefixed prefix k)) v
              else MetadataSchemaProperty (Some (prefixed prefix k)) v)
      as [o|e|m h s]; try discriminate.
    intros H. injection H as <-. apply mem_set_mono.
Qed.

Lemma compile_properties_mem_mono key items : forall options options',
  compile_properties rec level prefix items options = Ok options' ->
  mem key options = true -> mem key options' = true.
Proof.
  induction items as [|[k v] items IH]; intros options options'; simpl.
  - intros H. injection H as <-. trivial.
  - destruct (compile_property rec level prefix options k v) as [o1|e|m h s] eqn:E;
      try discriminate.
    intros H Hm. apply (IH o1 options' H).
    exact (compile_property_mem_mono key options k v o1 E Hm).
Qed.

Lemma compile_properties_emits items : forall options options' k v key,
  compile_properties rec level prefix items options = Ok options' ->
  In (k, v) items ->
  k <> "schema_name" ->
  (exists t, subscript_type v = Ok t /\
     ((py_eq t (PStr "object") = false /\ key = prefixed prefix k) \/
      (py_eq t (PStr "object") = true /\
       exists sub, rec v (level + 1) (Some (prefixed prefix k)) = Ok sub /\
                   mem key sub = true))) ->
  mem key options' = true.
Proof.
  induction items as [|[k0 v0] items IH]; intros options options' k v key;
    simpl; [tauto|].
  destruct (compile_property rec level prefix options k0 v0) as [o1|e|m h s] eqn:E;
    try discriminate.
  intros H [Hin|Hin] Hk Hv; [|exact (IH o1 options' k v key H Hin Hk Hv)].
  injection Hin as -> ->.
  apply (compile_properties_mem_mono key items o1 options' H).
  revert E. unfold compile_property. rewrite (eqb_neq_false Hk).
  destruct Hv as (t & -> & [[Ho ->]|[Ho (sub & Hs & Hm)]]); rewrite Ho.
  - destruct (if level =? 0 then SchemaProperty (Some (prefixed prefix k)) v
              else MetadataSchemaProperty (Some (prefixed prefix k)) v)
      as [o|e|m h s]; try discriminate.
    intros E. injection E as <-. apply mem_set_same.
  - rewrite Hs. intros E. injection E as <-. apply mem_update_right. exact Hm.
Qed.

End CompileKeeps.

Lemma mark_all_mem_mono prefix key reqs : forall options options',
  mark_all prefix reqs options = Ok options' ->
  mem key options = true -> mem key options' = true.
Proof.
  induction reqs as [|r reqs IH]; intros options options'; simpl.
  - intros H. injection H as <-. trivial.
  - destruct (mark_one prefix options r) as [o1|e|m h s] eqn:E; try discriminate.
    intros H Hm. apply (IH o1 options' H).
    destruct (@mark_one_inv prefix options r o1 E)
      as [[_ ->] | [_ (k & o & _ & _ & ->)]]; [exact Hm|].
    apply mem_set_mono. exact Hm.
Qed.

Lemma mark_required_mem_mono prefix key required_props options options' :
  mark_required prefix required_props options = Ok options' ->
  mem key options = true -> mem key options' = true.
Proof.
  unfold mark_required. destruct (truthy required_props).
  - destruct (py_iter required_props) as [reqs|e|m h s]; try discriminate.
    apply mark_all_mem_mono.
  - intros H. injection H as <-. trivial.
Qed.

(* ================================================================== *)
(** * Coercion of values *)

Lemma type_is_of (o : Opt) (t u : string) :
  type_ o = PStr t -> type_is o u = String.eqb t u.
Proof. intros H. unfold type_is. rewrite H. reflexivity. Qed.

(** X15.  For an option of type [boolean], [set_value] never raises: it
    stores a boolean or the raw value as it is.  It reads [true], [1],
    [false] and [0] in any letter case, keeps a native boolean, and gives
    back the boolean whose [str] it is handed. *)
Theorem boolean_coercion (B : Builtins) (o : Opt) :
  type_ o = PStr "boolean" ->
  (forall raw, exists v,
     coerce B o raw = Ok v /\ (v = raw \/ exists b, v = PBool b)) /\
  (forall s, PyStr.lower s = "true" \/ PyStr.lower s = "1" ->
             coerce B o (PStr s) = Ok (PBool true)) /\
  (forall s, PyStr.lower s = "false" \/ PyStr.lower s = "0" ->
             coerce B o (PStr s) = Ok (PBool false)) /\
  (forall b, coerce B o (PBool b) = Ok (PBool b)) /\
  (forall b, coerce B o (PStr (py_str B (PBool b))) = Ok (PBool b)).
Proof.
  intros Ht.
  assert (Hc : forall raw,
    coerce B o raw =
    match raw with
    | PBool _ => Ok raw
    | _ =>
        let s := PyStr.lower (py_str B raw) in
        if String.eqb s "true" || String.eqb s "1" then Ok (PBool true)
        else if String.eqb s "false" || String.eqb s "0" then Ok (PBool false)
        else Ok raw
    end).
  { intros raw. unfold coerce.
    rewrite !(type_is_of o "boolean" _ Ht). reflexivity. }
  split; [|split; [|split; [|split]]].
  - intros raw. rewrite Hc.
    destruct raw; cbv zeta;
      try (eexists; split; [reflexivity | left; reflexivity]);
      match goal with
      | |- context [if ?c then _ else _] =>
          destruct c;
          [eexists; split; [reflexivity | right; eexists; reflexivity]|]
      end;
      match goal with
      | |- context [if ?c then _ else _] =>
          destruct c;
          [eexists; split; [reflexivity | right; eexists; reflexivity]
          |eexists; split; [reflexivity | left; reflexivity]]
      end.
  - intros s Hs. rewrite Hc. cbv zeta. cbn [py_str].
    destruct Hs as [-> | ->]; reflexivity.
  - intros s Hs. rewrite Hc. cbv zeta. cbn [py_str].
    destruct Hs as [-> | ->]; reflexivity.
  - intros b. rewrite Hc. reflexivity.
  - intros b. rewrite Hc. destruct b; reflexivity.
Qed.

Lemma boolean_coercion_witness :
  coerce example_builtins example_flag (PStr "TRUE") = Ok (PBool true).
Proof.
  refine (proj1 (proj2 (boolean_coercion example_builtins example_flag _))
            "TRUE" _).
  - reflexivity.
  - left. reflexivity.
Defined.

Section ResolutionOfValues.

Variable B : Builtins.

Lemma process_coercion_raises check app o raw e :
  check && has_help app = false ->
  processed o = false ->
  is_Flag o = false ->
  get (cli_option o) (argv_mappings app) = Some raw ->
  coerce B o raw = Raise e ->
  process_cli_option B check app o = (Raise e, app, o).
Proof.
  intros Hh Hp Hf Hg Hc. unfold process_cli_option, process_cli_option_with.
  rewrite Hh, Hp, Hf. unfold mem, dict_get_default, set_value.
  rewrite Hg, Hc. reflexivity.
Qed.

End ResolutionOfValues.

(** X16.  An option of type [number] needs text: when the mapping holds
    [None] for its token (a bare [--opt]) or a boolean, an integer or a
    float (values a JSON file gives), resolution ends with [TypeError],
    whatever [int] and [float] would do, and changes nothing. *)
Theorem number_option_needs_text
    (B : Builtins) (check : bool) (app : App) (o : Opt) (raw : pyval) :
  check && has_help app = false ->
  processed o = false ->
  is_Flag o = false ->
  get (cli_option o) (argv_mappings app) = Some raw ->
  type_ o = PStr "number" ->
  raw = PNone \/ (exists b, raw = PBool b) \/ (exists z, raw = PInt z) \/
  (exists f, raw = PFloat f) ->
  process_cli_option B check app o = (Raise TypeError, app, o).
Proof.
  intros Hh Hp Hf Hg Ht Hraw.
  apply (process_coercion_raises B check app o raw TypeError Hh Hp Hf Hg).
  unfold coerce. rewrite !(type_is_of o "number" _ Ht).
  destruct Hraw as [-> | [[b ->] | [[z ->] | [f ->]]]]; reflexivity.
Qed.

Lemma number_option_needs_text_witness :
  process_cli_option example_builtins false
    (mkApp [] [("--name", PStr "meta"); ("--count", PInt 3)] logging_INFO)
    example_count =
  (Raise TypeError,
   mkApp [] [("--name", PStr "meta"); ("--count", PInt 3)] logging_INFO,
   example_count).
Proof.
  refine (number_option_needs_text example_builtins false _ example_count
            (PInt 3) _ _ _ _ _ _).
  - reflexivity.
  - reflexivity.
  - reflexivity.
  - reflexivity.
  - reflexivity.
  - right. right. left. exists 3. reflexivity.
Defined.

(** X17.  A required option that is not a flag and whose token is in the
    mapping must resolve to a true value: when the value [set_value]
    stores is [None], empty, zero or [False], resolution fails with the
    requires-a-value error; the value stays stored, nothing is removed and
    the option is not marked processed. *)
Theorem required_value_must_be_true
    (B : Builtins) (check : bool) (app : App) (o : Opt) (raw v : pyval) :
  check && has_help app = false ->
  processed o = false ->
  is_Flag o = false ->
  get (cli_option o) (argv_mappings app) = Some raw ->
  coerce B o raw = Ok v ->
  required o = true ->
  truthy v = false ->
  process_cli_option B check app o =
    (Exit (Some (MsgRequiresValue (cli_option o))) true 1, app, with_value o v) /\
  MissingValueError (cli_option o) (fst (fst (process_cli_option B check app o))).
Proof.
  intros Hh Hp Hf Hg Hc Hr Ht.
  rewrite (process_unprocessed_present B check app o Hh Hp Hf Hg Hc).
  unfold check_required_value.
  change (required (with_value o v)) with (required o).
  change (value (with_value o v)) with v.
  rewrite Hr, Ht. simpl. split; [reflexivity|].
  exists 1. split; [reflexivity | lia].
Qed.

Lemma required_value_must_be_true_witness :
  MissingValueError "--name"
    (fst (fst (process_cli_option example_builtins false example_app_bare_name
                 example_name))).
Proof.
  refine (proj2 (required_value_must_be_true example_builtins false
            example_app_bare_name example_name PNone PNone _ _ _ _ _ _ _)).
  - reflexivity.
  - reflexivity.
  - reflexivity.
  - reflexivity.
  - reflexivity.
  - reflexivity.
  - reflexivity.
Defined.

(** X18.  An unprocessed option that is not a flag, given as a bare token
    or with text: when [set_value] stores [v] and the required checks
    pass (the option is optional, or [v] is true and is one of the allowed
    values if a non-empty list of them is set), resolution returns, the
    option holds [v] and is processed, and its token is no longer a key of
    the mapping. *)
Theorem value_option_is_resolved
    (B : Builtins) (check : bool) (app : App) (o : Opt) (raw v : pyval) :
  check && has_help app = false ->
  processed o = false ->
  is_Flag o = false ->
  get (cli_option o) (argv_mappings app) = Some raw ->
  (raw = PNone \/ exists s, raw = PStr s) ->
  coerce B o raw = Ok v ->
  (required o = false \/
   (truthy v = true /\
    (one_of o = None \/ one_of o = Some [] \/
     exists l, one_of o = Some l /\ py_in v l = true))) ->
  let run := process_cli_option B check app o in
  fst (fst run) = Ok tt /\
  snd run = with_processed (with_value o v) true /\
  mem (cli_option o) (argv_mappings (snd (fst run))) = false.
Proof.
  intros Hh Hp Hf Hg Hraw Hc Hreq run. subst run.
  rewrite (process_unprocessed_present B check app o Hh Hp Hf Hg Hc).
  assert (Hchk : check_required_value (with_value o v) = Ok tt).
  { unfold check_required_value.
    change (required (with_value o v)) with (required o).
    change (value (with_value o v)) with v.
    change (one_of (with_value o v)) with (one_of o).
    destruct Hreq as [-> | [Ht Ho]]; [reflexivity|].
    rewrite Ht. destruct (required o); [|reflexivity]. simpl.
    destruct Ho as [-> | [-> | (l & -> & Hin)]]; try reflexivity.
    destruct l; [reflexivity|]. rewrite Hin. reflexivity. }
  rewrite Hchk. unfold _remove_argv_entry. rewrite Hg.
  assert (He : exists entry, argv_entry (cli_option o) raw = Ok entry).
  { unfold argv_entry. destruct Hraw as [-> | [s ->]].
    - simpl. eauto.
    - destruct (truthy (PStr s)); eauto. }
  destruct He as [entry ->]. simpl.
  split; [reflexivity|]. split; [reflexivity|]. apply mem_pop_same.
Qed.

Lemma value_option_is_resolved_witness :
  snd (process_cli_option example_builtins false
         (mkApp ["--port=9090"] [("--port", PStr "9090")] logging_INFO)
         example_port)
  = with_processed (with_value example_port (PInt 9090)) true.
Proof.
  refine (proj1 (proj2 (value_option_is_resolved example_builtins false
            (mkApp ["--port=9090"] [("--port", PStr "9090")] logging_INFO)
            example_port (PStr "9090") (PInt 9090) _ _ _ _ _ _ _))).
  - reflexivity.
  - reflexivity.
  - reflexivity.
  - reflexivity.
  - right. exists "9090". reflexivity.
  - vm_compute. reflexivity.
  - right. split; [reflexivity | left; reflexivity].
Defined.

(* ================================================================== *)
(** * What resolution leaves alone *)

Lemma set_value_inv B o raw o1 :
  set_value B o raw = Ok o1 -> exists v, o1 = with_value o v.
Proof.
  unfold set_value. destruct (coerce B o raw) as [v|e|m h s]; try discriminate.
  intros H. injection H as <-. eauto.
Qed.

Lemma same_identity_refl o : same_identity o o.
Proof. repeat split. Qed.

(** X19.  Resolution assigns only [value], [required] and [processed]:
    the class, token, name, description, default, allowed values, type and
    schema fragment of the option are what they were.  It never sets
    [required] to true and never clears [processed], and an option that is
    already processed is left exactly as it is. *)
Theorem resolution_keeps_identity
    (B : Builtins) (check : bool) (app : App) (o : Opt) :
  let o1 := snd (process_cli_option B check app o) in
  same_identity o o1 /\
  (required o1 = true -> required o = true) /\
  (processed o = true -> o1 = o).
Proof.
  cbv zeta. unfold process_cli_option, process_cli_option_with.
  destruct (check && has_help app).
  { simpl. split; [apply same_identity_refl | auto]. }
  destruct (processed o) eqn:Hp.
  { simpl. split; [apply same_identity_refl | auto]. }
  destruct (mem (cli_option o) (argv_mappings app)).
  - destruct (is_Flag o).
    + destruct (_remove_argv_entry app (cli_option o)) as [[u|e|m h s] a1];
        simpl; repeat split; auto; discriminate.
    + destruct (set_value B o _) as [o1|e|m h s] eqn:Es;
        [|simpl; split; [apply same_identity_refl | split; [auto | discriminate]]..].
      destruct (set_value_inv B _ _ _ Es) as [v ->].
      destruct (check_required_value (with_value o v)) as [u|e|m h s];
        [|simpl; repeat split; auto; discriminate..].
      destruct (_remove_argv_entry app (cli_option o)) as [[u'|e|m h s] a1];
        simpl; repeat split; auto; discriminate.
  - destruct (required_value_is_missing_spec app o) as [E|[E|[E|E]]];
      rewrite E; try destruct (one_of o); simpl; repeat split; auto;
      discriminate.
Qed.

Lemma resolution_keeps_identity_witness :
  same_identity example_format
    (snd (process_cli_option example_builtins false example_app_format
            example_format)).
Proof.
  exact (proj1 (resolution_keeps_identity example_builtins false
                  example_app_format example_format)).
Defined.

(* ================================================================== *)
(** * Resolution only consumes *)

Lemma list_remove_length x l l' :
  list_remove x l = Some l' -> List.length l = S (List.length l').
Proof.
  revert l'. induction l as [|y l IH]; simpl; intros l'; [discriminate|].
  destruct (String.eqb y x).
  - intros H. injection H as <-. reflexivity.
  - destruct (list_remove x l) as [r|]; [|discriminate].
    intros H. injection H as <-. simpl. rewrite (IH r eq_refl). reflexivity.
Qed.

Lemma get_pop_Some (V : Type) k tok (v : V) d :
  get k (pop tok d) = Some v -> get k d = Some v.
Proof.
  destruct (string_dec k tok) as [->|Hne].
  - rewrite get_pop_same. discriminate.
  - rewrite get_pop_other by exact Hne. trivial.
Qed.

Lemma shrinks_refl app : shrinks app app.
Proof. repeat split; auto. Qed.

Lemma shrinks_trans a b c : shrinks a b -> shrinks b c -> shrinks a c.
Proof.
  intros (H1 & H2 & H3 & H4) (K1 & K2 & K3 & K4). repeat split.
  - auto.
  - lia.
  - auto.
  - congruence.
Qed.

Lemma remove_argv_entry_shrinks app tok :
  shrinks app (snd (_remove_argv_entry app tok)) /\
  (List.length (argv app) <=
   S (List.length (argv (snd (_remove_argv_entry app tok)))))%nat.
Proof.
  unfold _remove_argv_entry.
  destruct (get tok (argv_mappings app)) as [v|];
    [|split; [apply shrinks_refl | simpl; lia]].
  destruct (argv_entry tok v) as [entry|e|m h s];
    [|split; [apply shrinks_refl | simpl; lia]..].
  simpl.
  assert (Hm : forall k w, get k (pop tok (argv_mappings app)) = Some w ->
                           get k (argv_mappings app) = Some w).
  { intros k w. apply get_pop_Some. }
  destruct (str_in entry (argv app));
    [|split; [repeat split; auto | lia]].
  destruct (list_remove entry (argv app)) as [l|] eqn:El;
    [|split; [repeat split; auto | lia]].
  pose proof (list_remove_length _ _ _ El) as Hlen.
  split; [|lia]. repeat split; simpl; auto; [|lia].
  intros a Ha. eapply list_remove_subset; eassumption.
Qed.

Lemma process_app_cases sv check app o :
  snd (fst (process_cli_option_with sv check app o)) = app \/
  snd (fst (process_cli_option_with sv check app o)) =
  snd (_remove_argv_entry app (cli_option o)).
Proof.
  unfold process_cli_option_with.
  destruct (check && has_help app); [left; reflexivity|].
  destruct (processed o); [left; reflexivity|].
  destruct (mem (cli_option o) (argv_mappings app)).
  - destruct (is_Flag o).
    + right. destruct (_remove_argv_entry app (cli_option o)) as [[u|e|m h s] a1];
        reflexivity.
    + destruct (sv o _) as [o1|e|m h s]; [|left; reflexivity..].
      destruct (check_required_value o1) as [u|e|m h s]; [|left; reflexivity..].
      right. destruct (_remove_argv_entry app (cli_option o)) as [[u'|e|m h s] a1];
        reflexivity.
  - left.
    destruct (required_value_is_missing app o) as [[[|]|e|m h s] o1];
      try reflexivity.
    destruct (one_of o1); reflexivity.
Qed.

Lemma process_each_shrinks sv os : forall app,
  shrinks app (snd (fst (process_each sv app os))).
Proof.
  induction os as [|o os IH]; intros app; simpl; [apply shrinks_refl|].
  assert (Hstep : shrinks app (snd (fst (process_cli_option_with sv false app o)))).
  { destruct (process_app_cases sv false app o) as [-> | ->];
      [apply shrinks_refl | apply remove_argv_entry_shrinks]. }
  destruct (process_cli_option_with sv false app o) as [[r a1] o1].
  simpl in Hstep. destruct r as [u|e|m h s]; try exact Hstep.
  specialize (IH a1). destruct (process_each sv a1 os) as [[r2 a2] os2].
  simpl in IH |- *. exact (shrinks_trans _ _ _ Hstep IH).
Qed.

(** X20.  Resolution only consumes.  After resolving one option, and after
    batch resolution however it ends, every token of the vector was in the
    vector before, every entry of the mapping was in the mapping before
    with the same value, and the logger's level is unchanged; one option
    removes at most one token. *)
Theorem resolution_only_consumes
    (sv : Opt -> pyval -> outcome Opt) (check : bool) (app : App) :
  (forall o,
     shrinks app (snd (fst (process_cli_option_with sv check app o))) /\
     (List.length (argv app) <=
      S (List.length (argv (snd (fst (process_cli_option_with sv check app o))))))%nat) /\
  (forall os, shrinks app (snd (fst (process_cli_options_with sv app os)))).
Proof.
  split.
  - intros o. destruct (process_app_cases sv check app o) as [-> | ->].
    + split; [apply shrinks_refl | lia].
    + apply remove_argv_entry_shrinks.
  - intros os. unfold process_cli_options_with.
    destruct (has_help app); [apply shrinks_refl|].
    pose proof (process_each_shrinks sv os app) as H.
    destruct (process_each sv app os) as [[r a1] os1]. simpl in H.
    destruct r as [u|e|m h s]; try exact H.
    destruct (0 <? Z.of_nat (List.length (argv a1))); exact H.
Qed.

Lemma resolution_only_consumes_witness :
  shrinks example_app_format
    (snd (fst (process_cli_options example_builtins example_app_format
                 [example_format]))).
Proof.
  exact (proj2 (resolution_only_consumes (set_value example_builtins) false
                  example_app_format) [example_format]).
Defined.

(* ================================================================== *)
(** * The order of resolution and the dotted exemption *)

Lemma process_present_ok sv check app o app1 o1 :
  process_cli_option_with sv check app o = (Ok tt, app1, o1) ->
  processed o = false ->
  mem (cli_option o) (argv_mappings app) = true ->
  check && has_help app = false /\
  argv_mappings app1 = pop (cli_option o) (argv_mappings app).
Proof.
  unfold process_cli_option_with.
  destruct (check && has_help app); [discriminate|].
  intros H Hp Hm. rewrite Hp, Hm in H. split; [reflexivity|].
  assert (Hrem : forall r a1,
            _remove_argv_entry app (cli_option o) = (r, a1) ->
            is_ok r = true ->
            argv_mappings a1 = pop (cli_option o) (argv_mappings app)).
  { intros r a1 E Hr.
    destruct (remove_argv_entry_cases app (cli_option o))
      as [[l El] | [r' [El Hr']]]; rewrite El in E.
    - injection E as _ <-. reflexivity.
    - injection E as <- _. congruence. }
  destruct (is_Flag o).
  - destruct (_remove_argv_entry app (cli_option o)) as [[u|e|m h s] a1] eqn:E;
      try discriminate.
    injection H as <- _. exact (Hrem _ _ eq_refl eq_refl).
  - destruct (sv o _) as [o2|e|m h s]; try discriminate.
    destruct (check_required_value o2) as [u|e|m h s]; try discriminate.
    destruct (_remove_argv_entry app (cli_option o)) as [[u'|e|m h s] a1] eqn:E;
      try discriminate.
    injection H as <- _. exact (Hrem _ _ eq_refl eq_refl).
Qed.

Lemma In_pop (V : Type) k (v : V) tok d :
  In (k, v) (pop tok d) -> In (k, v) d /\ k <> tok.
Proof.
  unfold pop. rewrite filter_In. simpl. intros [Hin Hne]. split; [exact Hin|].
  intros ->. rewrite String.eqb_refl in Hne. discriminate.
Qed.

(** X21.  The dotted exemption looks at the mapping as resolution has
    left it.  When the token of an option [a] is the only entry of the
    mapping that starts with the sibling prefix of [b] and has a value,
    then once [a] has been resolved and consumed, resolving the required,
    unset [b] does not fail: [b] is demoted to optional and marked
    processed. *)
Theorem consumed_sibling_no_longer_counts
    (sv : Opt -> pyval -> outcome Opt) (check : bool) (app : App) (a b : Opt)
    (n : string) (app1 : App) (a1 : Opt) :
  processed a = false ->
  mem (cli_option a) (argv_mappings app) = true ->
  process_cli_option_with sv check app a = (Ok tt, app1, a1) ->
  processed b = false ->
  required b = true ->
  value b = PNone ->
  name b = Some n ->
  PyStr.contains_char "." n = true ->
  mem (cli_option b) (argv_mappings app) = false ->
  (forall k v, In (k, v) (argv_mappings app) ->
               PyStr.startswith k (sub_option_prefix b) = true ->
               v <> PNone -> k = cli_option a) ->
  process_cli_option_with sv check app1 b =
  (Ok tt, app1, with_processed (with_required b false) true).
Proof.
  intros Hpa Hma Hrun Hpb Hrb Hvb Hnb Hdot Hmb Honly.
  destruct (process_present_ok sv check app a app1 a1 Hrun Hpa Hma) as [Hh Hpop].
  assert (Hh1 : check && has_help app1 = false).
  { destruct check; [|reflexivity]. simpl in Hh |- *.
    unfold has_help in Hh |- *. rewrite Hpop.
    apply orb_false_iff in Hh. destruct Hh as [H1 H2].
    rewrite !mem_pop_false by assumption. reflexivity. }
  assert (Hmb1 : mem (cli_option b) (argv_mappings app1) = false).
  { rewrite Hpop. apply mem_pop_false. exact Hmb. }
  rewrite (process_unprocessed_absent sv check app1 b Hh1 Hpb Hmb1).
  unfold required_value_is_missing. rewrite Hrb, Hvb, Hnb, Hdot. simpl.
  assert (Hs : sibling_has_value (sub_option_prefix b) (argv_mappings app1) = false).
  { apply sibling_has_value_false. intros (k & v & Hin & Hpre & Hv).
    rewrite Hpop in Hin. apply In_pop in Hin. destruct Hin as [Hin Hne].
    apply Hne. exact (Honly k v Hin Hpre Hv). }
  rewrite Hs. reflexivity.
Qed.

Lemma consumed_sibling_no_longer_counts_witness :
  process_cli_option example_builtins false (mkApp [] [] logging_INFO)
    example_sub_b =
  (Ok tt, mkApp [] [] logging_INFO,
   with_processed (with_required example_sub_b false) true).
Proof.
  refine (consumed_sibling_no_longer_counts (set_value example_builtins) false
            example_app_sub_a example_sub_a example_sub_b "sub.b"
            (mkApp [] [] logging_INFO)
            (with_processed (with_value example_sub_a (PStr "5")) true)
            _ _ _ _ _ _ _ _ _ _).
  - reflexivity.
  - reflexivity.
  - vm_compute. reflexivity.
  - reflexivity.
  - reflexivity.
  - reflexivity.
  - reflexivity.
  - reflexivity.
  - reflexivity.
  - intros k v [E|[]] _ _. injection E as <- _. reflexivity.
Defined.

(* ================================================================== *)
(** * A failure in the batch *)

Lemma store_set_same (h : store) i o : store_set h i o i = o.
Proof. unfold store_set. rewrite Nat.eqb_refl. reflexivity. Qed.

Lemma store_set_other (h : store) i o j : j <> i -> store_set h i o j = h j.
Proof.
  intros H. unfold store_set.
  destruct (Nat.eqb j i) eqn:E; [|reflexivity].
  apply Nat.eqb_eq in E. contradiction.
Qed.

Lemma map_store_set_absent (h : store) i o rest :
  ~ In i rest -> map (store_set h i o) rest = map h rest.
Proof.
  intros Hi. apply map_ext_in. intros j Hj. apply store_set_other.
  intros ->. contradiction.
Qed.

(** The loop changes no object outside the list. *)
Lemma process_refs_frame sv refs : forall app h r a h',
  process_refs sv app h refs = (r, a, h') ->
  forall j, ~ In j refs -> h' j = h j.
Proof.
  induction refs as [|i rest IH]; intros app h r a h'; simpl.
  - intros H. injection H as _ _ <-. reflexivity.
  - destruct (process_cli_option_with sv false app (h i)) as [[rx ax] o1].
    intros H j Hj.
    assert (Hji : j <> i) by (intros ->; apply Hj; left; reflexivity).
    destruct rx as [u|e|m hh st].
    + rewrite (IH _ _ _ _ _ H j) by (intros Hr; apply Hj; right; exact Hr).
      apply store_set_other. exact Hji.
    + injection H as _ _ <-. apply store_set_other. exact Hji.
    + injection H as _ _ <-. apply store_set_other. exact Hji.
Qed.

(** A loop that returns has processed every object of the list. *)
Lemma process_refs_all_processed sv refs : forall app h u a h',
  process_refs sv app h refs = (Ok u, a, h') ->
  forall j, In j refs -> processed (h' j) = true.
Proof.
  induction refs as [|i rest IH]; intros app h u a h'; simpl.
  - intros _ j [].
  - destruct (process_cli_option_with sv false app (h i)) as [[rx ax] o1] eqn:E.
    destruct rx as [v|e|m hh st]; try discriminate.
    intros H j Hj.
    destruct (in_dec Nat.eq_dec j rest) as [Hr|Hr].
    + exact (IH _ _ _ _ _ H j Hr).
    + destruct Hj as [<-|Hj]; [|contradiction].
      rewrite (process_refs_frame _ _ _ _ _ _ _ H i Hr), store_set_same.
      exact (process_ok_processed _ _ _ _ E).
Qed.

(** On a list without repetition the loop over references is the loop
    over records. *)
Lemma process_refs_distinct sv refs : forall app h r a h',
  NoDup refs ->
  process_refs sv app h refs = (r, a, h') ->
  process_each sv app (map h refs) = (r, a, map h' refs).
Proof.
  induction refs as [|i rest IH]; intros app h r a h' Hnd; simpl.
  - intros H. injection H as <- <- _. reflexivity.
  - inversion Hnd as [|i' rest' Hi Hrest]; subst.
    destruct (process_cli_option_with sv false app (h i)) as [[rx ax] o1].
    destruct rx as [u|e|m hh st]; intros H.
    + rewrite (process_refs_frame _ _ _ _ _ _ _ H i Hi), store_set_same.
      rewrite <- (map_store_set_absent h i o1 rest Hi).
      rewrite (IH _ _ _ _ _ Hrest H). reflexivity.
    + injection H as <- <- <-.
      rewrite store_set_same, (map_store_set_absent h i o1 rest Hi). reflexivity.
    + injection H as <- <- <-.
      rewrite store_set_same, (map_store_set_absent h i o1 rest Hi). reflexivity.
Qed.

Lemma process_cli_options_refs_distinct sv refs app h r a h' :
  NoDup refs ->
  process_cli_options_refs sv app h refs = (r, a, h') ->
  process_cli_options_with sv app (map h refs) = (r, a, map h' refs).
Proof.
  intros Hnd. unfold process_cli_options_refs, process_cli_options_with.
  destruct (has_help app).
  - intros H. injection H as <- <- <-. reflexivity.
  - destruct (process_refs sv app h refs) as [[r1 a1] h1] eqn:E.
    rewrite (process_refs_distinct _ _ _ _ _ _ _ Hnd E).
    destruct r1 as [u|e|m hh st].
    + destruct (0 <? Z.of_nat (List.length (argv a1)));
        intros H; injection H as <- <- <-; reflexivity.
    + intros H. injection H as <- <- <-. reflexivity.
    + intros H. injection H as <- <- <-. reflexivity.
Qed.

(** X22.  Batch resolution, over a list of references to option objects in
    which an object may occur more than once, stops at the first visit whose
    resolution does not return: it ends as that resolution ended, with the
    object it visited as that resolution left it; the check for leftover
    arguments is not reached.  The objects visited before it are processed,
    the object it stops at is not among them, and every other object is as
    it was before the batch. *)
Theorem batch_stops_at_first_failure
    (sv : Opt -> pyval -> outcome Opt) (refs1 : list nat) (i : nat)
    (refs2 : list nat) (app app1 app2 : App) (h h1 : store)
    (r : outcome unit) (o2 : Opt) :
  has_help app = false ->
  process_refs sv app h refs1 = (Ok tt, app1, h1) ->
  process_cli_option_with sv false app1 (h1 i) = (r, app2, o2) ->
  is_ok r = false ->
  process_cli_options_refs sv app h (refs1 ++ i :: refs2)%list =
  (r, app2, store_set h1 i o2) /\
  (forall j, In j refs1 -> processed (h1 j) = true) /\
  ~ In i refs1 /\
  (forall j, ~ In j refs1 -> j <> i -> store_set h1 i o2 j = h j).
Proof.
  intros Hh H1 Ho Hr.
  assert (Hproc : forall j, In j refs1 -> processed (h1 j) = true).
  { exact (process_refs_all_processed _ _ _ _ _ _ _ H1). }
  split; [|split; [exact Hproc|split]].
  - assert (He : forall l a0 h0,
              process_refs sv a0 h0 l = (Ok tt, app1, h1) ->
              process_refs sv a0 h0 (l ++ i :: refs2)%list =
              (r, app2, store_set h1 i o2)).
    { induction l as [|x l IH]; intros a0 h0 Hl.
      - simpl in Hl. injection Hl as <- <-. simpl. rewrite Ho.
        destruct r; [discriminate | reflexivity..].
      - simpl in Hl |- *.
        destruct (process_cli_option_with sv false a0 (h0 x)) as [[rx ax] x1].
        destruct rx as [u|e|m hh s]; try discriminate.
        exact (IH _ _ Hl). }
    unfold process_cli_options_refs. rewrite Hh, (He refs1 app h H1).
    destruct r; [discriminate | reflexivity..].
  - intros Hin. specialize (Hproc i Hin).
    unfold process_cli_option_with in Ho. simpl in Ho. rewrite Hproc in Ho.
    injection Ho as <- _ _. discriminate.
  - intros j Hj Hji. rewrite (store_set_other _ _ _ _ Hji).
    exact (process_refs_frame _ _ _ _ _ _ _ H1 j Hj).
Qed.

(** The flag object twice, then the required [--name], which is not
    given: the second visit of the flag returns, the batch stops at
    [--name]. *)
Lemma batch_stops_at_first_failure_witness :
  process_cli_options_refs (set_value example_builtins) example_app_format
    example_store [O; O; 1%nat; 2%nat] =
  (Exit (Some (MsgRequiredParameter "--name")) true 1, example_app_format,
   store_set
     (store_set (store_set example_store 0 (with_processed example_flag true))
        0 (with_processed example_flag true))
     1 example_name).
Proof.
  refine (proj1 (batch_stops_at_first_failure (set_value example_builtins)
            [O; O] 1%nat [2%nat]
            example_app_format example_app_format example_app_format
            example_store
            (store_set (store_set example_store 0
                          (with_processed example_flag true))
               0 (with_processed example_flag true))
            (Exit (Some (MsgRequiredParameter "--name")) true 1) example_name
            _ _ _ _)).
  - reflexivity.
  - reflexivity.
  - reflexivity.
  - reflexivity.
Defined.

(* ================================================================== *)
(** * Subcommands *)

(** X23.  The subcommand is taken from the head of the vector.  After
    ingestion of a vector without special tokens whose first element is a
    registered subcommand, written without [=] and not named again by a
    later token, [get_subcommand] returns its entry and removes it from
    the vector and from the mapping.  A first element that is neither a
    subcommand nor a help token makes it return [None] and print the
    invalid-subcommand line, and changes nothing. *)
Theorem subcommand_is_taken_from_head
    (V : Type) (B : Builtins) (subcommands : dict V) (sub : string)
    (rest : list string) (shared : dict pyval) (level : Z) :
  plain_tokens (sub :: rest) ->
  PyStr.contains_char "=" sub = false ->
  (forall a, In a rest -> fst (split_arg a) <> sub) ->
  let app := snd (AppBase_init B (sub :: rest) shared level) in
  fst (AppBase_init B (sub :: rest) shared level) = Ok tt /\
  (mem sub subcommands = true ->
   get_subcommand subcommands app =
   (Ok (get sub subcommands),
    mkApp rest (pop sub (argv_mappings app)) level, [])) /\
  (mem sub subcommands = false ->
   sub <> "--help" -> sub <> "-h" ->
   get_subcommand subcommands app = (Ok None, app, [SubcommandInvalid sub])).
Proof.
  intros Hp Heq Hrest app. subst app.
  unfold AppBase_init, _get_argv_mappings. cbn [argv argv_mappings log_level].
  rewrite walk_argv_plain by exact Hp.
  cbn [w_mappings w_level w_log_option w_file_option remove_noted fst snd].
  split; [reflexivity|].
  assert (Hget : get sub (map_args (sub :: rest) shared) = Some PNone).
  { simpl. rewrite (split_arg_without_value sub Heq). simpl.
    rewrite map_args_other by exact Hrest. apply get_set_same. }
  split.
  - intros Hm. unfold get_subcommand. cbn [argv]. rewrite Hm.
    unfold _remove_argv_entry. cbn [argv argv_mappings log_level].
    rewrite Hget. simpl. rewrite String.eqb_refl. simpl. reflexivity.
  - intros Hm Hh1 Hh2. unfold get_subcommand. cbn [argv]. rewrite Hm.
    simpl. rewrite (eqb_neq_false Hh1), (eqb_neq_false Hh2). reflexivity.
Qed.

Lemma subcommand_is_taken_from_head_witness :
  get_subcommand example_subcommands
    (snd (AppBase_init example_builtins ["install"; "--name=x"] [] logging_INFO))
  = (Ok (Some "Install metadata"),
     mkApp ["--name=x"] [("--name", PStr "x")] logging_INFO, []).
Proof.
  refine (proj1 (proj2 (subcommand_is_taken_from_head string example_builtins
            example_subcommands "install" ["--name=x"] [] logging_INFO _ _ _))
            _).
  - intros a [<-|[<-|[]]]; reflexivity.
  - reflexivity.
  - intros a [<-|[]]. discriminate.
  - reflexivity.
Defined.

(* ================================================================== *)
(** * From the command line to the resolved option *)

Lemma check_required_value_passes o v :
  (required o = false \/
   (truthy v = true /\
    (one_of o = None \/ one_of o = Some [] \/
     exists l, one_of o = Some l /\ py_in v l = true))) ->
  check_required_value (with_value o v) = Ok tt.
Proof.
  intros Hreq. unfold check_required_value.
  change (required (with_value o v)) with (required o).
  change (value (with_value o v)) with v.
  change (one_of (with_value o v)) with (one_of o).
  destruct Hreq as [-> | [Ht Ho]]; [reflexivity|].
  rewrite Ht. destruct (required o); [|reflexivity]. simpl.
  destruct Ho as [-> | [-> | (l & -> & Hin)]]; try reflexivity.
  destruct l; [reflexivity|]. rewrite Hin. reflexivity.
Qed.

(** X24.  One token [--opt=text] against the option it names.  For a token
    that is not special and not a help token, whose text is not empty:
    ingestion maps the option to the text and leaves the vector whole;
    batch resolution over that option, when [set_value] stores [v] and the
    required checks pass, returns with the option holding [v], marked
    processed, and with the vector and the mapping empty. *)
Theorem single_option_end_to_end
    (B : Builtins) (tok s : string) (o : Opt) (v : pyval) (level : Z) :
  PyStr.contains_char "=" tok = false ->
  s <> EmptyString ->
  tok <> "--debug" -> tok <> "--log-level" -> tok <> "--file" ->
  tok <> "--help" -> tok <> "-h" ->
  cli_option o = tok ->
  processed o = false ->
  is_Flag o = false ->
  coerce B o (PStr s) = Ok v ->
  (required o = false \/
   (truthy v = true /\
    (one_of o = None \/ one_of o = Some [] \/
     exists l, one_of o = Some l /\ py_in v l = true))) ->
  AppBase_init B [tok ++ "=" ++ s] [] level =
    (Ok tt, mkApp [tok ++ "=" ++ s] [(tok, PStr s)] level) /\
  process_cli_options B (mkApp [tok ++ "=" ++ s] [(tok, PStr s)] level) [o] =
    (Ok tt, mkApp [] [] level, [with_processed (with_value o v) true]).
Proof.
  intros Heq Hs Hd Hl Hf Hh1 Hh2 Htok Hp Hflag Hc Hreq.
  assert (Hsplit : split_arg (tok ++ "=" ++ s) = (tok, PStr s))
    by exact (split_arg_with_value tok s Heq).
  split.
  - assert (Hplain : plain_tokens [tok ++ "=" ++ s]).
    { intros a [<-|[]]. unfold special_token. rewrite Hsplit. simpl.
      rewrite (eqb_neq_false Hd), (eqb_neq_false Hl), (eqb_neq_false Hf).
      reflexivity. }
    unfold AppBase_init, _get_argv_mappings. cbn [argv argv_mappings log_level].
    rewrite walk_argv_plain by exact Hplain.
    cbn [w_mappings w_level w_log_option w_file_option remove_noted map_args
         fold_left].
    rewrite Hsplit. reflexivity.
  - unfold process_cli_options, process_cli_options_with, has_help, mem.
    cbn [argv_mappings get].
    rewrite (eqb_neq_false Hh1), (eqb_neq_false Hh2). cbn [orb].
    cbn [process_each].
    fold (process_cli_option B false
            (mkApp [tok ++ "=" ++ s] [(tok, PStr s)] level) o).
    assert (Hg : get (cli_option o)
                     (argv_mappings (mkApp [tok ++ "=" ++ s] [(tok, PStr s)] level))
                 = Some (PStr s)).
    { rewrite Htok. simpl. rewrite String.eqb_refl. reflexivity. }
    rewrite (process_unprocessed_present B false _ o eq_refl Hp Hflag Hg Hc).
    rewrite (check_required_value_passes o v Hreq).
    unfold _remove_argv_entry. rewrite Hg. unfold argv_entry.
    assert (Ht : truthy (PStr s) = true) by (destruct s; [congruence | reflexivity]).
    rewrite Ht, Htok. cbn [argv argv_mappings log_level str_in existsb list_remove].
    rewrite String.eqb_refl. cbn [orb].
    unfold pop. cbn [filter fst]. rewrite String.eqb_refl. reflexivity.
Qed.

Lemma single_option_end_to_end_witness :
  process_cli_options example_builtins
    (mkApp ["--name=foo"] [("--name", PStr "foo")] logging_INFO) [example_name] =
  (Ok tt, mkApp [] [] logging_INFO,
   [with_processed (with_value example_name (PStr "foo")) true]).
Proof.
  refine (proj2 (single_option_end_to_end example_builtins "--name" "foo"
            example_name (PStr "foo") logging_INFO _ _ _ _ _ _ _ _ _ _ _ _)).
  - reflexivity.
  - discriminate.
  - discriminate.
  - discriminate.
  - discriminate.
  - discriminate.
  - discriminate.
  - reflexivity.
  - reflexivity.
  - reflexivity.
  - reflexivity.
  - right. split; [reflexivity | left; reflexivity].
Defined.

(* ================================================================== *)
(** * The schema compiler: keys are unique, later properties win *)

Lemma In_keys_set (V : Type) k (v : V) d k' :
  In k' (keys (set k v d)) -> k' = k \/ In k' (keys d).
Proof.
  unfold keys. induction d as [|[k0 v0] d IH]; simpl.
  - intros [E|[]]. left. now symmetry.
  - destruct (String.eqb k0 k); simpl.
    + intros H. right. exact H.
    + intros [E|H]; [right; left; exact E|].
      destruct (IH H) as [E|Hin]; [left; exact E | right; right; exact Hin].
Qed.

Lemma set_NoDup (V : Type) k (v : V) d :
  NoDup (keys d) -> NoDup (keys (set k v d)).
Proof.
  unfold keys. induction d as [|[k0 v0] d IH]; simpl; intros Hnd.
  - constructor; [intros [] | constructor].
  - inversion Hnd as [|? ? Hnot Hnd']; subst.
    destruct (String.eqb k0 k) eqn:E; simpl.
    + constructor; assumption.
    + constructor; [|apply IH; exact Hnd'].
      intros Hin. destruct (In_keys_set V k v d k0 Hin) as [Ek|Hin'].
      * subst k0. rewrite String.eqb_refl in E. discriminate.
      * exact (Hnot Hin').
Qed.

Lemma update_NoDup (V : Type) (b : dict V) : forall a,
  NoDup (keys a) -> NoDup (keys (update a b)).
Proof.
  unfold update. induction b as [|[k0 v0] b IH]; intros a Ha; simpl;
    [exact Ha|].
  apply IH. apply set_NoDup. exact Ha.
Qed.

Lemma get_None_keys (V : Type) K (d : dict V) :
  get K d = None <-> ~ In K (keys d).
Proof.
  unfold keys. induction d as [|[k0 v0] d IH]; simpl; [tauto|].
  destruct (String.eqb k0 K) eqn:E.
  - apply String.eqb_eq in E. split; [discriminate | intros H; exfalso; auto].
  - apply String.eqb_neq in E. rewrite IH. tauto.
Qed.

Lemma get_update_other (V : Type) K (b : dict V) : forall a,
  get K b = None -> get K (update a b) = get K a.
Proof.
  unfold update. induction b as [|[k0 v0] b IH]; intros a; simpl;
    [reflexivity|].
  destruct (String.eqb k0 K) eqn:E; [discriminate|].
  intros Hb. rewrite (IH _ Hb). apply get_set_other.
  apply String.eqb_neq in E. congruence.
Qed.

Lemma get_update_right (V : Type) K (b : dict V) : forall a o,
  NoDup (keys b) -> get K b = Some o -> get K (update a b) = Some o.
Proof.
  induction b as [|[k0 v0] b IH]; intros a o Hnd; simpl; [discriminate|].
  inversion Hnd as [|? ? Hnot Hnd']; subst.
  destruct (String.eqb k0 K) eqn:E.
  - apply String.eqb_eq in E. subst k0. intros H. injection H as <-.
    change (update a ((K, v0) :: b)) with (update (set K v0 a) b).
    rewrite get_update_other by (apply get_None_keys; exact Hnot).
    apply get_set_same.
  - intros H. change (update a ((k0, v0) :: b)) with (update (set k0 v0 a) b).
    apply IH; assumption.
Qed.

Section CompileUnique.

Variable rec : pyval -> Z -> option string -> outcome (dict Opt).
Variables (level : Z) (prefix : option string).

Lemma compile_property_NoDup options k v options' :
  NoDup (keys options) ->
  compile_property rec level prefix options k v = Ok options' ->
  NoDup (keys options').
Proof.
  intros Hnd. unfold compile_property.
  destruct (String.eqb k "schema_name").
  { intros H. injection H as <-. exact Hnd. }
  destruct (subscript_type v) as [t|e|m h s]; try discriminate.
  destruct (py_eq t (PStr "object")).
  - destruct (rec v (level + 1) (Some (prefixed prefix k))) as [sub|e|m h s];
      try discriminate.
    intros H. injection H as <-. apply update_NoDup. exact Hnd.
  - destruct (if level =? 0 then SchemaProperty (Some (prefixed prefix k)) v
              else MetadataSchemaProperty (Some (prefixed prefix k)) v)
      as [o|e|m h s]; try discriminate.
    intros H. injection H as <-. apply set_NoDup. exact Hnd.
Qed.

Lemma compile_properties_NoDup items : forall options options',
  NoDup (keys options) ->
  compile_properties rec level prefix items options = Ok options' ->
  NoDup (keys options').
Proof.
  induction items as [|[k v] items IH]; intros options options' Hnd; simpl.
  - intros H. injection H as <-. exact Hnd.
  - destruct (compile_property rec level prefix options k v) as [o1|e|m h s] eqn:E;
      try discriminate.
    apply IH. exact (compile_property_NoDup options k v o1 Hnd E).
Qed.

Lemma compile_properties_at before k v after : forall options opts,
  compile_properties rec level prefix (before ++ (k, v) :: after)%list options
    = Ok opts ->
  exists ob o1,
    compile_properties rec level prefix before options = Ok ob /\
    compile_property rec level prefix ob k v = Ok o1 /\
    compile_properties rec level prefix after o1 = Ok opts.
Proof.
  induction before as [|[k0 v0] before IH]; intros options opts; simpl.
  - destruct (compile_property rec level prefix options k v) as [o1|e|m h s] eqn:E;
      try discriminate.
    intros H. exists options, o1. auto.
  - destruct (compile_property rec level prefix options k0 v0) as [o0|e|m h s];
      try discriminate.
    apply IH.
Qed.

End CompileUnique.

Lemma mark_all_NoDup prefix reqs : forall options options',
  NoDup (keys options) ->
  mark_all prefix reqs options = Ok options' ->
  NoDup (keys options').
Proof.
  induction reqs as [|r reqs IH]; intros options options' Hnd; simpl.
  - intros H. injection H as <-. exact Hnd.
  - destruct (mark_one prefix options r) as [o1|e|m h s] eqn:E; try discriminate.
    apply IH.
    destruct (@mark_one_inv prefix options r o1 E)
      as [[_ ->] | [_ (k & o & _ & _ & ->)]]; [exact Hnd|].
    apply set_NoDup. exact Hnd.
Qed.

(** The keys of a compiled option set are distinct. *)
Lemma schema_to_options_NoDup schema level prefix opts :
  schema_to_options schema level prefix = Ok opts -> NoDup (keys opts).
Proof.
  assert (Hleaf : forall sch o, leaf_option prefix sch = Ok o -> NoDup (keys o)).
  { intros sch o. unfold leaf_option.
    destruct (MetadataSchemaProperty prefix sch) as [x|e|m h s]; try discriminate.
    destruct prefix as [p|]; [|discriminate].
    intros H. injection H as <-. constructor; [intros [] | constructor]. }
  destruct schema as [| | | |s|l|d]; try discriminate.
  - simpl. destruct (PyStr.contains "properties" s); [discriminate | apply Hleaf].
  - simpl. destruct (py_in (PStr "properties") l); [discriminate | apply Hleaf].
  - rewrite schema_to_options_dict.
    destruct (get "properties" d) as [[| | | | | |props]|]; try discriminate;
      [|apply Hleaf].
    destruct (compile_properties schema_to_options level prefix props [])
      as [options|e|m h s] eqn:Ec; try discriminate.
    assert (Hnd : NoDup (keys options)).
    { apply (compile_properties_NoDup schema_to_options level prefix props []
               options); [constructor | exact Ec]. }
    unfold mark_required. destruct (truthy (dict_get_default "required" d)).
    + destruct (py_iter (dict_get_default "required" d)) as [reqs|e|m h s];
        try discriminate.
      apply mark_all_NoDup. exact Hnd.
    + intros H. injection H as <-. exact Hnd.
Qed.

Section KeptOption.

(** A property of options that marking keeps. *)
Variable P : Opt -> Prop.
Hypothesis P_mark : forall o, P o -> P (with_required o true).

Local Abbreviation has K d := (exists o, get K d = Some o /\ P o).

Lemma mark_all_keeps prefix K reqs : forall options options',
  mark_all prefix reqs options = Ok options' ->
  has K options -> has K options'.
Proof.
  induction reqs as [|r reqs IH]; intros options options'; simpl.
  - intros H. injection H as <-. trivial.
  - destruct (mark_one prefix options r) as [o1|e|m h s] eqn:E; try discriminate.
    intros H Hhas. apply (IH o1 options' H).
    destruct (@mark_one_inv prefix options r o1 E)
      as [[_ ->] | [_ (key & o & _ & Hg & ->)]]; [exact Hhas|].
    destruct Hhas as (o' & Hg' & Hp).
    destruct (string_dec K key) as [->|Hne].
    + rewrite get_set_same. exists (with_required o true). split; [reflexivity|].
      apply P_mark. rewrite Hg in Hg'. injection Hg' as ->. exact Hp.
    + rewrite get_set_other by exact Hne. exists o'. auto.
Qed.

Lemma mark_required_keeps prefix K required_props options options' :
  mark_required prefix required_props options = Ok options' ->
  has K options -> has K options'.
Proof.
  unfold mark_required. destruct (truthy required_props).
  - destruct (py_iter required_props) as [reqs|e|m h s]; try discriminate.
    apply mark_all_keeps.
  - intros H. injection H as <-. trivial.
Qed.

Lemma compile_properties_keeps K level prefix after : forall options options',
  no_later_collision K level prefix after ->
  compile_properties schema_to_options level prefix after options = Ok options' ->
  has K options -> has K options'.
Proof.
  induction after as [|[k v] after IH]; intros options options' Hfree; simpl.
  - intros H. injection H as <-. trivial.
  - destruct (compile_property schema_to_options level prefix options k v)
      as [o1|e|m h s] eqn:E; try discriminate.
    intros H Hhas. apply (IH o1 options'); [|exact H|].
    { intros k' v' t' Hin. apply Hfree. right. exact Hin. }
    revert E. unfold compile_property.
    destruct (String.eqb k "schema_name") eqn:Ek.
    { intros E. injection E as <-. exact Hhas. }
    apply String.eqb_neq in Ek.
    destruct (subscript_type v) as [t|e|m h s] eqn:Et; try discriminate.
    destruct (Hfree k v t (or_introl eq_refl) Ek Et) as [Hleaf Hobj].
    destruct (py_eq t (PStr "object")).
    + destruct (schema_to_options v (level + 1) (Some (prefixed prefix k)))
        as [sub|e|m h s] eqn:Es; try discriminate.
      intros E. injection E as <-.
      rewrite get_update_other by exact (Hobj eq_refl sub eq_refl). exact Hhas.
    + destruct (if level =? 0 then SchemaProperty (Some (prefixed prefix k)) v
                else MetadataSchemaProperty (Some (prefixed prefix k)) v)
        as [o|e|m h s]; try discriminate.
      intros E. injection E as <-.
      rewrite get_set_other by (intros E'; exact (Hleaf eq_refl (eq_sym E'))).
      exact Hhas.
Qed.

(** What the property [(k, v)] puts under [K] stays there with [P], through
    the properties after it and the marking, when none of them emits [K]. *)
Lemma kept_through_schema d level prefix before k v after opts K :
  get "properties" d = Some (PDict (before ++ (k, v) :: after)%list) ->
  schema_to_options (PDict d) level prefix = Ok opts ->
  no_later_collision K level prefix after ->
  (forall ob o1,
     compile_property schema_to_options level prefix ob k v = Ok o1 ->
     has K o1) ->
  has K opts.
Proof.
  intros Hprops Hrun Hfree Hat.
  rewrite schema_to_options_dict, Hprops in Hrun.
  destruct (compile_properties schema_to_options level prefix
              (before ++ (k, v) :: after)%list [])
    as [options|e|m h s] eqn:Ec; try discriminate.
  destruct (compile_properties_at schema_to_options level prefix before k v
              after [] options Ec) as (ob & o1 & _ & E1 & Eafter).
  apply (mark_required_keeps prefix K _ options opts Hrun).
  apply (compile_properties_keeps K level prefix after o1 options Hfree Eafter).
  exact (Hat ob o1 E1).
Qed.

(** An option of a nested object's set, with [P], is in the enclosing
    set with [P], when no later property emits its key. *)
Lemma kept_from_nested d level prefix before k v t after opts sub K :
  get "properties" d = Some (PDict (before ++ (k, v) :: after)%list) ->
  k <> "schema_name" ->
  subscript_type v = Ok t ->
  py_eq t (PStr "object") = true ->
  schema_to_options v (level + 1) (Some (prefixed prefix k)) = Ok sub ->
  has K sub ->
  no_later_collision K level prefix after ->
  schema_to_options (PDict d) level prefix = Ok opts ->
  has K opts.
Proof.
  intros Hprops Hk Ht Ho Hsub Hhas Hfree Hrun.
  apply (kept_through_schema d level prefix before k v after opts K Hprops Hrun
           Hfree).
  intros ob o1. unfold compile_property.
  rewrite (eqb_neq_false Hk), Ht, Ho, Hsub. intros E. injection E as <-.
  destruct Hhas as (o & Hg & Hp). exists o. split; [|exact Hp].
  apply get_update_right; [|exact Hg].
  exact (schema_to_options_NoDup v (level + 1) (Some (prefixed prefix k)) sub Hsub).
Qed.

End KeptOption.

(* ================================================================== *)
(** * The schema compiler: the required round trip *)








(* ================================================================== *)
(** * The schema compiler: what becomes of each property's options *)

(** X14.  When a schema compiles, no option name its properties produce is
    lost: every property other than [schema_name] that is not an object has
    an option under its prefixed name, and every key of the set a nested
    object compiles to is a key of the resulting set.  The option under such
    a name is the property's own, as constructed or with [required] set,
    when no property compiled later emits an option under the same name. *)
Theorem compiled_set_keeps_every_property
    (d : dict pyval) (level : Z) (prefix : option string)
    (before after : list (string * pyval)) (opts : dict Opt)
    (k : string) (v t : pyval) :
  schema_to_options (PDict d) level prefix = Ok opts ->
  get "properties" d = Some (PDict (before ++ (k, v) :: after)%list) ->
  k <> "schema_name" ->
  subscript_type v = Ok t ->
  (py_eq t (PStr "object") = false ->
   mem (prefixed prefix k) opts = true /\
   (no_later_collision (prefixed prefix k) level prefix after ->
    exists o0,
      (if level =? 0 then SchemaProperty (Some (prefixed prefix k)) v
       else MetadataSchemaProperty (Some (prefixed prefix k)) v) = Ok o0 /\
      (get (prefixed prefix k) opts = Some o0 \/
       get (prefixed prefix k) opts = Some (with_required o0 true)))) /\
  (py_eq t (PStr "object") = true ->
   forall sub key,
     schema_to_options v (level + 1) (Some (prefixed prefix k)) = Ok sub ->
     (mem key sub = true -> mem key opts = true) /\
     (forall o0,
        get key sub = Some o0 ->
        no_later_collision key level prefix after ->
        get key opts = Some o0 \/ get key opts = Some (with_required o0 true))).
Proof.
  intros Hrun Hp Hk Ht.
  assert (Hin : In (k, v) (before ++ (k, v) :: after)%list).
  { apply in_or_app. right. left. reflexivity. }
  assert (Hmark : forall o0 o,
             o = o0 \/ o = with_required o0 true ->
             with_required o true = o0 \/
             with_required o true = with_required o0 true).
  { intros o0 o [-> | ->]; right; reflexivity. }
  pose proof Hrun as Hrun'.
  rewrite schema_to_options_dict, Hp in Hrun'.
  destruct (compile_properties schema_to_options level prefix
              (before ++ (k, v) :: after)%list [])
    as [options|e|m h s] eqn:Ec; try discriminate.
  split.
  - intros Ho. split.
    + apply (mark_required_mem_mono _ _ _ _ _ Hrun').
      apply (compile_properties_emits schema_to_options level prefix _ []
               options k v (prefixed prefix k) Ec Hin Hk).
      exists t. split; [exact Ht|]. left. split; [exact Ho | reflexivity].
    + intros Hfree.
      destruct (compile_properties_at schema_to_options level prefix before k v
                  after [] options Ec) as (ob & o1 & _ & E1 & _).
      unfold compile_property in E1.
      rewrite (eqb_neq_false Hk), Ht, Ho in E1.
      destruct (if level =? 0 then SchemaProperty (Some (prefixed prefix k)) v
                else MetadataSchemaProperty (Some (prefixed prefix k)) v)
        as [o0|e|m h s] eqn:Eo; try discriminate.
      exists o0. split; [reflexivity|].
      destruct (kept_through_schema
                  (fun o => o = o0 \/ o = with_required o0 true) (Hmark o0)
                  d level prefix before k v after opts (prefixed prefix k)
                  Hp Hrun Hfree) as (o & Hg & [-> | ->]).
      * intros ob' o1'. unfold compile_property.
        rewrite (eqb_neq_false Hk), Ht, Ho, Eo. intros E. injection E as <-.
        exists o0. split; [apply get_set_same | left; reflexivity].
      * left. exact Hg.
      * right. exact Hg.
  - intros Ho sub key Hs. split.
    + intros Hm. apply (mark_required_mem_mono _ _ _ _ _ Hrun').
      apply (compile_properties_emits schema_to_options level prefix _ []
               options k v key Ec Hin Hk).
      exists t. split; [exact Ht|]. right. split; [exact Ho|].
      exists sub. split; assumption.
    + intros o0 Hg Hfree.
      destruct (kept_from_nested
                  (fun o => o = o0 \/ o = with_required o0 true) (Hmark o0)
                  d level prefix before k v t after opts sub key
                  Hp Hk Ht Ho Hs) as (o & Hg' & [-> | ->]).
      * exists o0. split; [exact Hg | left; reflexivity].
      * exact Hfree.
      * exact Hrun.
      * left. exact Hg'.
      * right. exact Hg'.
Qed.

(** [display_name] of the flat example: the set holds its option, marked
    required. *)
Lemma compiled_set_keeps_every_property_witness :
  mem "display_name" example_flat_options = true /\
  exists o0,
    SchemaProperty (Some "display_name") (PDict [("type", PStr "string")]) = Ok o0 /\
    (get "display_name" example_flat_options = Some o0 \/
     get "display_name" example_flat_options = Some (with_required o0 true)).
Proof.
  assert (Hfree : no_later_collision "display_name" 0 None
                    [("metadata",
                      PDict [("type", PStr "object");
                             ("properties",
                              PDict [("count", PDict [("type", PStr "number")])])])]).
  { intros k v t [E|[]] _ Ht. injection E as <- <-. injection Ht as <-.
    split; [discriminate|]. intros _ sub Hs. vm_compute in Hs.
    injection Hs as <-. reflexivity. }
  pose proof (proj1 (compiled_set_keeps_every_property
            [("properties",
              PDict [("schema_name", PDict [("type", PStr "string")]);
                     ("display_name", PDict [("type", PStr "string")]);
                     ("metadata",
                      PDict [("type", PStr "object");
                             ("properties",
                              PDict [("count", PDict [("type", PStr "number")])])])]);
             ("required", PList [PStr "schema_name"; PStr "display_name";
                                 PStr "metadata"])]
            0 None [("schema_name", PDict [("type", PStr "string")])] _
            example_flat_options "display_name"
            (PDict [("type", PStr "string")]) (PStr "string")
            ltac:(vm_compute; reflexivity) eq_refl ltac:(discriminate) eq_refl)
            eq_refl) as [Hm Hg].
  split; [exact Hm | exact (Hg Hfree)].
Defined.
